(** * hh_vacancies_parser: the ingestion and partitioning engine of [main.py]

    A shallow embedding of [save_to_db], [parse_by_date_range] and
    [parse_with_parts], and the properties of the record filter, the store,
    the range walker and the window partitioner; then of the functions
    around them: [parse_all_vacancies], [parse_last_1_months], the token
    functions, the query of [export_to_google_sheets], [init_db] and
    [main].

    Conventions of the embedding.
    - A Python [str] is a [string]; a value that may also be [None] (a JSON
      [null]) is a [pyval].  A dictionary key that may be missing is an
      [option]: [None] is "key absent", and [get] supplies the default the
      way [dict.get(key, default)] does.  Keys that hold a list or an
      object carry values of the upstream's schema.
    - [str.isdigit] and [int] are modelled on the ASCII digits, which is what
      the upstream sends as employer ids.
    - The SQLite table [hh_vacancies] is the list of its rows in insertion
      order; the connection is opened and committed around every
      [save_to_db], so the table is the only state kept between calls.
    - The upstream search API is a function of the number of requests issued
      so far and of the request; [requests.get] followed by
      [raise_for_status] either raises or yields the decoded JSON.
    - [print] appends a structured line to the output log. *)

From Stdlib Require Import ZArith NArith List String Ascii Bool Lia.
From Stdlib Require Import Permutation DecimalString.
Import ListNotations.

Local Open Scope string_scope.
Local Open Scope list_scope.
Local Open Scope Z_scope.

(** ** Python values *)

Inductive pyval : Type :=
| PNone
| PStr (s : string).

(** The fields of a JSON object read with [dict.get]. *)
Definition field := option pyval.

Definition get (f : field) (default : string) : pyval :=
  match f with
  | Some v => v
  | None => PStr default
  end.

(** Truth value of [x] in [if x] / [not x]. *)
Definition truthy (v : pyval) : bool :=
  match v with
  | PNone => false
  | PStr s => negb (String.eqb s "")
  end.

(** [str(x)], as an f-string renders [{x}]. *)
Definition py_str (v : pyval) : string :=
  match v with
  | PNone => "None"
  | PStr s => s
  end.

Definition is_ascii_digit (c : ascii) : bool :=
  let n := Z.of_nat (nat_of_ascii c) in (48 <=? n) && (n <=? 57).

Fixpoint all_digits (s : string) : bool :=
  match s with
  | EmptyString => true
  | String c s' => is_ascii_digit c && all_digits s'
  end.

(** [s.isdigit()]: a non-empty string of digits. *)
Definition isdigit (s : string) : bool :=
  negb (String.eqb s "") && all_digits s.

Fixpoint int_acc (acc : Z) (s : string) : Z :=
  match s with
  | EmptyString => acc
  | String c s' => int_acc (10 * acc + (Z.of_nat (nat_of_ascii c) - 48)) s'
  end.

(** [int(s)] on a string of digits. *)
Definition int (s : string) : Z := int_acc 0 s.

Definition nl : string := String (ascii_of_nat 10) EmptyString.

(** [sep.join(xs)] *)
Definition join (sep : string) (xs : list string) : string :=
  String.concat sep xs.

(** ** Configuration *)

Definition EXCLUDED_EMPLOYEE_IDS : list Z :=
  [ 3177; 999442; 9330017; 10871726; 3443127; 2657797; 6153907; 2156474; 1545374;
    2553761; 1498795; 1999994; 5481550; 9579070; 3112459; 10004751; 11842692;
    3089914; 10623824; 9860737; 4263964; 9623282; 2899434; 3094193; 5830512;
    57073; 11056965; 4174021; 10753971; 1729313; 2022372; 5388489; 1740; 10753971;
    5805688; 611692; 4263964; 4856020; 3390849; 5302705; 5547644; 10753971;
    11571595; 11124587; 10321769; 11695543; 4671816; 2732037; 4333013; 11807162;
    2800609; 11807162; 5193393; 1141344; 9330017; 5687059; 3315744 ].

Definition KEYWORD : string := "AmoCRM".

(** [x in xs] on a list of integers. *)
Definition in_list (x : Z) (xs : list Z) : bool := existsb (Z.eqb x) xs.

(** ** Raw postings, as the upstream serves them *)

Record Industry := { ind_name : field }.

Record Employer := {
  emp_id : field;
  emp_name : field;
  emp_industries : option (list Industry)
}.

Record Address := { addr_city : field }.

Record Area := { area_name : field }.

Record Phone := {
  ph_country : field;
  ph_city : field;
  ph_number : field;
  ph_comment : field
}.

Record Contacts := {
  c_name : field;
  c_email : field;
  c_phones : option (list Phone)
}.

(** The names of professional roles are joined with [", ".join], which takes
    strings only. *)
Record Role := { role_name : option string }.

Record Posting := {
  v_id : field;
  v_name : field;
  v_alternate_url : field;
  v_employer : option Employer;
  v_address : option Address;      (* [None]: key absent or null *)
  v_area : option Area;
  v_contacts : option Contacts;    (* [None]: key absent or null *)
  v_professional_roles : option (list Role);
  v_published_at : field
}.

(** The empty dictionary [{}] used as a default. *)
Definition empty_employer : Employer :=
  {| emp_id := None; emp_name := None; emp_industries := None |}.

Definition empty_area : Area := {| area_name := None |}.

Definition or_default {A : Type} (o : option A) (d : A) : A :=
  match o with
  | Some a => a
  | None => d
  end.

(** ** The store *)

(** A row of [hh_vacancies]; [PNone] is SQL NULL. *)
Record row := {
  id : pyval;
  vacancy_name : pyval;
  url : pyval;
  employer_id : pyval;
  employer_name : pyval;
  city : pyval;
  contact_name : pyval;
  phones : pyval;
  email : pyval;
  prof_roles : pyval;
  industry : pyval;
  published_at : pyval
}.

Definition table := list row.

(** Two values collide under the PRIMARY KEY of a TEXT column: equal texts.
    SQLite lets NULL into such a column and never lets it collide. *)
Definition key_conflict (a b : pyval) : bool :=
  match a, b with
  | PStr x, PStr y => String.eqb x y
  | _, _ => false
  end.

(** [INSERT OR IGNORE INTO hh_vacancies (...) VALUES (...)] *)
Definition insert_or_ignore (db : table) (r : row) : table :=
  if existsb (fun r0 => key_conflict (id r0) (id r)) db then db
  else db ++ [r].

(** ** [save_to_db] *)

(** One phone entry of the loop over [phones_arr]: the rendered phone and
    whether its number is non-empty. *)
Definition phone_full (phone_obj : Phone) : string :=
  let country := get (ph_country phone_obj) "" in
  let city_code := get (ph_city phone_obj) "" in
  let number := get (ph_number phone_obj) "" in
  let comment := get (ph_comment phone_obj) "" in
  let phone_full :=
    ("+" ++ py_str country ++ " (" ++ py_str city_code ++ ") " ++ py_str number)%string in
  if truthy comment then (phone_full ++ " [" ++ py_str comment ++ "]")%string
  else phone_full.

Definition phone_has_number (phone_obj : Phone) : bool :=
  truthy (get (ph_number phone_obj) "").

(** The employer test at the head of the loop body. *)
Definition excluded_employer (employer_id : pyval) : bool :=
  match employer_id with
  | PStr s =>
      if truthy employer_id && isdigit s then in_list (int s) EXCLUDED_EMPLOYEE_IDS
      else false
  | PNone => false
  end.

(** The body of [for vac in vacancies] up to the INSERT: [None] is
    [continue], [Some r] is the tuple handed to [cursor.execute]. *)
Definition record_filter (vac : Posting) : option row :=
  let vac_id := get (v_id vac) "" in
  let vacancy_name := get (v_name vac) "" in
  let url := get (v_alternate_url vac) "" in
  let employer := or_default (v_employer vac) empty_employer in
  let employer_id := get (emp_id employer) "" in
  if excluded_employer employer_id then None
  else
    let employer_name := get (emp_name employer) "Не указано" in
    let industries := or_default (emp_industries employer) [] in
    let industry :=
      match industries with
      | i0 :: _ => get (ind_name i0) ""
      | [] => PStr ""
      end in
    let city :=
      match v_address vac with
      | Some address =>
          match addr_city address with
          | Some c =>
              if truthy c then c
              else get (area_name (or_default (v_area vac) empty_area)) "Не указано"
          | None => get (area_name (or_default (v_area vac) empty_area)) "Не указано"
          end
      | None => get (area_name (or_default (v_area vac) empty_area)) "Не указано"
      end in
    let '(contact_name, email, phones_arr) :=
      match v_contacts vac with
      | Some contacts =>
          (get (c_name contacts) "", get (c_email contacts) "",
           or_default (c_phones contacts) [])
      | None => (PStr "", PStr "", [])
      end in
    let phone_strings := map phone_full phones_arr in
    let has_contacts := existsb phone_has_number phones_arr in
    if negb (truthy email) && negb has_contacts then None
    else
      let phones := join nl phone_strings in
      let prof_roles_arr := or_default (v_professional_roles vac) [] in
      let prof_roles_names :=
        map (fun role => or_default (role_name role) "") prof_roles_arr in
      let prof_roles := join ", " prof_roles_names in
      let published_at := get (v_published_at vac) "" in
      Some {| id := vac_id; vacancy_name := vacancy_name; url := url;
              employer_id := employer_id; employer_name := employer_name;
              city := city; contact_name := contact_name;
              phones := PStr phones; email := email;
              prof_roles := PStr prof_roles; industry := industry;
              published_at := published_at |}.

(** One iteration of the loop on the table. *)
Definition save_one (db : table) (vac : Posting) : table :=
  match record_filter vac with
  | Some r => insert_or_ignore db r
  | None => db
  end.

Definition save_to_db (db : table) (vacancies : list Posting) : table :=
  fold_left save_one vacancies db.

(** ** The upstream API and the world around the program *)

(** The query of one [requests.get(HH_API_URL, params=..., headers=...)]. *)
Record request := {
  q_text : string;
  q_per_page : Z;
  q_page : Z;
  q_date_from : string;
  q_date_to : string;
  q_excluded_employer_id : list Z;
  q_bearer : string
}.

(** The decoded body: [items] and [pages] may be missing. *)
Record payload := {
  d_items : option (list Posting);
  d_pages : option Z
}.

(** [HttpFailure]: [response.raise_for_status()] raises. *)
Inductive response : Type :=
| HttpFailure
| Json (data : payload).

Inductive exn : Type :=
| HTTPError
| OverflowError
| ValueError.

(** What a call hands back: the functions here have no [return] with a
    value, so they hand back [None]. *)
Inductive pyobj : Type :=
| ObjNone
| ObjInt (n : Z).

Inductive outcome : Type :=
| Return (v : pyobj)
| Raise (e : exn).

(** The lines the program prints, by their content. *)
Inductive line : Type :=
| LineRangeStart (date_from date_to : string)
| LineNoMore (date_from date_to : string)
| LinePage (date_from date_to : string) (page received total_saved : Z)
| LineLastPage (date_from date_to : string)
| LineCeiling
| LineTotal (total_saved : Z) (date_from date_to : string)
| LineDateError (date_to date_from : string)
| LinePartsError (parts : Z)
| LineSegment (i parts : Z) (range_start_str range_end_str : string).

Record world := {
  db : table;              (* vacancies.db *)
  sent : list request;     (* the requests issued, oldest first *)
  out : list line          (* standard output, oldest first *)
}.

Definition print (l : line) (w : world) : world :=
  {| db := db w; sent := sent w; out := out w ++ [l] |}.

Definition issue (q : request) (w : world) : world :=
  {| db := db w; sent := sent w ++ [q]; out := out w |}.

Definition with_db (t : table) (w : world) : world :=
  {| db := t; sent := sent w; out := out w |}.

Definition len {A : Type} (l : list A) : Z := Z.of_nat (List.length l).

Section Walker.

(** The upstream: the response to the [n]-th request of the run. *)
Variable upstream : nat -> request -> response.

(** The [while True] loop of [parse_by_date_range]; [fuel] bounds the
    number of iterations and [None] means it ran out. *)
Fixpoint walk_loop (fuel : nat) (access_token date_from date_to : string)
    (page total_saved : Z) (w : world) : option (outcome * world) :=
  match fuel with
  | O => None
  | S fuel' =>
      let per_page := 100 in
      let params :=
        {| q_text := KEYWORD; q_per_page := per_page; q_page := page;
           q_date_from := date_from; q_date_to := date_to;
           q_excluded_employer_id := EXCLUDED_EMPLOYEE_IDS;
           q_bearer := access_token |} in
      let answer := upstream (List.length (sent w)) params in
      let w := issue params w in
      match answer with
      | HttpFailure => Some (Raise HTTPError, w)
      | Json data =>
          let vacancies := or_default (d_items data) [] in
          match vacancies with
          | [] =>
              let w := print (LineNoMore date_from date_to) w in
              Some (Return ObjNone,
                    print (LineTotal total_saved date_from date_to) w)
          | _ :: _ =>
              let w := with_db (save_to_db (db w) vacancies) w in
              let total_saved := total_saved + len vacancies in
              let w :=
                print (LinePage date_from date_to page (len vacancies)
                         total_saved) w in
              let page := page + 1 in
              if page >=? or_default (d_pages data) 1 then
                let w := print (LineLastPage date_from date_to) w in
                Some (Return ObjNone,
                      print (LineTotal total_saved date_from date_to) w)
              else if page >=? 200 then
                let w := print LineCeiling w in
                Some (Return ObjNone,
                      print (LineTotal total_saved date_from date_to) w)
              else
                walk_loop fuel' access_token date_from date_to page
                  total_saved w
          end
      end
  end.

Definition parse_by_date_range (fuel : nat)
    (access_token date_from date_to : string) (w : world)
    : option (outcome * world) :=
  let page := 0 in
  let total_saved := 0 in
  let w := print (LineRangeStart date_from date_to) w in
  walk_loop fuel access_token date_from date_to page total_saved w.

End Walker.

(** ** Dates *)

(** [datetime] values of the program are dates at midnight; one is kept as
    its proleptic Gregorian ordinal ([datetime.toordinal()]), on which
    [timedelta(days=k)] is addition and comparison is the order of [Z]. *)
Module Datetime.

Definition datetime := Z.

Definition MAXORDINAL : Z := 3652059.   (* 9999-12-31 *)

Definition is_leap (year : Z) : bool :=
  (year mod 4 =? 0) && (negb (year mod 100 =? 0) || (year mod 400 =? 0)).

Definition days_before_year (year : Z) : Z :=
  let y := year - 1 in y * 365 + y / 4 - y / 100 + y / 400.

Definition DAYS_IN_MONTH : list Z :=
  [-1; 31; 28; 31; 30; 31; 30; 31; 31; 30; 31; 30; 31].

Definition DAYS_BEFORE_MONTH : list Z :=
  [-1; 0; 31; 59; 90; 120; 151; 181; 212; 243; 273; 304; 334].

Definition days_in_month (year month : Z) : Z :=
  if (month =? 2) && is_leap year then 29
  else nth (Z.to_nat month) DAYS_IN_MONTH 0.

Definition days_before_month (year month : Z) : Z :=
  nth (Z.to_nat month) DAYS_BEFORE_MONTH 0
  + (if (month >? 2) && is_leap year then 1 else 0).

Definition ymd2ord (year month day : Z) : Z :=
  days_before_year year + days_before_month year month + day.

Definition DI400Y : Z := 146097.
Definition DI100Y : Z := 36524.
Definition DI4Y : Z := 1461.

Definition ord2ymd (n : Z) : Z * Z * Z :=
  let n := n - 1 in
  let n400 := n / DI400Y in
  let n := n mod DI400Y in
  let year := n400 * 400 + 1 in
  let n100 := n / DI100Y in
  let n := n mod DI100Y in
  let n4 := n / DI4Y in
  let n := n mod DI4Y in
  let n1 := n / 365 in
  let n := n mod 365 in
  let year := year + n100 * 100 + n4 * 4 + n1 in
  if (n1 =? 4) || (n100 =? 4) then (year - 1, 12, 31)
  else
    let leapyear := (n1 =? 3) && (negb (n4 =? 24) || (n100 =? 3)) in
    let month := Z.shiftr (n + 50) 5 in
    let preceding :=
      nth (Z.to_nat month) DAYS_BEFORE_MONTH 0
      + (if (month >? 2) && leapyear then 1 else 0) in
    if preceding >? n then
      let month := month - 1 in
      let preceding :=
        preceding
        - (nth (Z.to_nat month) DAYS_IN_MONTH 0
           + (if (month =? 2) && leapyear then 1 else 0)) in
      (year, month, n - preceding + 1)
    else (year, month, n - preceding + 1).

(** [d + timedelta(days=k)]; [None] is OverflowError. *)
Definition add_days (d : datetime) (k : Z) : option datetime :=
  let o := d + k in
  if (0 <? o) && (o <=? MAXORDINAL) then Some o else None.

Fixpoint split_on (c : ascii) (s : string) : list string :=
  match s with
  | EmptyString => [EmptyString]
  | String a s' =>
      if Ascii.eqb a c then EmptyString :: split_on c s'
      else
        match split_on c s' with
        | h :: t => String a h :: t
        | [] => [String a EmptyString]
        end
  end.

Definition slen (s : string) : Z := Z.of_nat (String.length s).

(** [datetime.strptime(s, "%Y-%m-%d")] on [YYYY-M-D] with a four-digit
    year and one or two digits for month and day; [None] is ValueError. *)
Definition strptime (s : string) : option datetime :=
  match split_on "-"%char s with
  | [y; m; d] =>
      if isdigit y && (slen y =? 4) && isdigit m && (slen m <=? 2)
         && isdigit d && (slen d <=? 2) then
        let year := int y in
        let month := int m in
        let day := int d in
        if (1 <=? year) && (1 <=? month) && (month <=? 12)
           && (1 <=? day) && (day <=? days_in_month year month)
        then Some (ymd2ord year month day)
        else None
      else None
  | _ => None
  end.

Definition digit (n : Z) : string :=
  String (ascii_of_nat (48 + Z.to_nat (n mod 10))) EmptyString.

Definition pad2 (n : Z) : string := (digit (n / 10) ++ digit n)%string.

Definition pad4 (n : Z) : string :=
  (digit (n / 1000) ++ digit (n / 100) ++ pad2 n)%string.

(** [d.strftime("%Y-%m-%d" + suffix)]; the year is written with four
    digits (the C library may drop leading zeros below the year 1000). *)
Definition strftime (d : datetime) (suffix : string) : string :=
  let '(y, m, dd) := ord2ymd d in
  (pad4 y ++ "-" ++ pad2 m ++ "-" ++ pad2 dd ++ suffix)%string.

End Datetime.

Import Datetime.

(** ** [parse_with_parts] *)

(** A date window, in whole days, both ends included. *)
Record window := {
  w_start : datetime;
  w_end : datetime
}.

Definition days (x : window) : Z := w_end x - w_start x + 1.

Section Partitioner.

Variable upstream : nat -> request -> response.
Variable fuel : nat.
Variable access_token : string.

(** The [for i in range(parts)] loop; [n] counts the indices left.  Next
    to the outcome and the world it gives the windows handed to
    [parse_by_date_range], in order. *)
Fixpoint parts_loop (dt_end : datetime) (parts days_per_part remainder : Z)
    (n : nat) (i : Z) (current_start : datetime) (w : world)
    : option (list window * outcome * world) :=
  match n with
  | O => Some ([], Return ObjNone, w)
  | S n' =>
      let extra := if i <? remainder then 1 else 0 in
      match add_days current_start (days_per_part + extra - 1) with
      | None => Some ([], Raise OverflowError, w)
      | Some current_end =>
          let current_end :=
            if current_end >? dt_end then dt_end else current_end in
          let range_start_str := strftime current_start "T00:00:00" in
          let range_end_str := strftime current_end "T23:59:59" in
          let this := {| w_start := current_start; w_end := current_end |} in
          let w :=
            print (LineSegment (i + 1) parts range_start_str range_end_str)
              w in
          match parse_by_date_range upstream fuel access_token
                  range_start_str range_end_str w with
          | None => None
          | Some (Raise e, w) => Some ([this], Raise e, w)
          | Some (Return _, w) =>
              match add_days current_end 1 with
              | None => Some ([this], Raise OverflowError, w)
              | Some current_start =>
                  if current_start >? dt_end then
                    Some ([this], Return ObjNone, w)
                  else
                    match parts_loop dt_end parts days_per_part remainder
                            n' (i + 1) current_start w with
                    | Some (ws, o, w) => Some (this :: ws, o, w)
                    | None => None
                    end
              end
          end
      end
  end.

Definition parse_with_parts (date_from date_to : string) (parts : Z)
    (w : world) : option (list window * outcome * world) :=
  match strptime date_from with
  | None => Some ([], Raise ValueError, w)
  | Some dt_start =>
      match strptime date_to with
      | None => Some ([], Raise ValueError, w)
      | Some dt_end =>
          if dt_end <? dt_start then
            Some ([], Return ObjNone, print (LineDateError date_to date_from) w)
          else if parts <=? 0 then
            Some ([], Return ObjNone, print (LinePartsError parts) w)
          else
            let total_days := (dt_end - dt_start) + 1 in
            let days_per_part := total_days / parts in
            let remainder := total_days mod parts in
            let current_start := dt_start in
            parts_loop dt_end parts days_per_part remainder
              (Z.to_nat parts) 0 current_start w
      end
  end.

End Partitioner.

(** A silent upstream: every page is empty. *)
Definition no_postings : nat -> request -> response :=
  fun _ _ => Json {| d_items := Some []; d_pages := Some 0 |}.

Definition empty_world : world := {| db := []; sent := []; out := [] |}.

(** ** What a table holds *)

(** The non-NULL ids of a table, in row order. *)
Fixpoint text_ids (t : table) : list string :=
  match t with
  | [] => []
  | r :: t' =>
      match id r with
      | PStr s => s :: text_ids t'
      | PNone => text_ids t'
      end
  end.

(** The PRIMARY KEY constraint as SQLite keeps it: no text id twice. *)
Definition ids_unique (t : table) : Prop := NoDup (text_ids t).

Definition rows_with_id (s : string) (t : table) : list row :=
  filter (fun r => key_conflict (id r) (PStr s)) t.

(** The contact details the loop body reads off a posting. *)
Definition posting_email (vac : Posting) : pyval :=
  match v_contacts vac with
  | Some contacts => get (c_email contacts) ""
  | None => PStr ""
  end.

Definition posting_phones (vac : Posting) : list Phone :=
  match v_contacts vac with
  | Some contacts => or_default (c_phones contacts) []
  | None => []
  end.

Definition posting_employer_id (vac : Posting) : pyval :=
  get (emp_id (or_default (v_employer vac) empty_employer)) "".

(** ** Sample postings, upstreams and the vocabulary of the statements *)

(** A posting of the excluded employer 3177 with an email and a phone. *)
Definition posting_3177 : Posting :=
  {| v_id := Some (PStr "101"); v_name := Some (PStr "CRM manager");
     v_alternate_url := Some (PStr "https://hh.ru/vacancy/101");
     v_employer :=
       Some {| emp_id := Some (PStr "3177"); emp_name := Some (PStr "Acme");
               emp_industries := None |};
     v_address := None; v_area := None;
     v_contacts :=
       Some {| c_name := Some (PStr "Ann");
               c_email := Some (PStr "hr@acme.example");
               c_phones :=
                 Some [ {| ph_country := Some (PStr "7");
                           ph_city := Some (PStr "495");
                           ph_number := Some (PStr "1234567");
                           ph_comment := Some PNone |} ] |};
     v_professional_roles := None;
     v_published_at := Some (PStr "2024-01-02T10:00:00+0300") |}.

(** A posting of employer 42 with an email and no phones, one with no
    contacts at all. *)
Definition posting_email_only : Posting :=
  {| v_id := Some (PStr "202"); v_name := Some (PStr "Integrator");
     v_alternate_url := None;
     v_employer :=
       Some {| emp_id := Some (PStr "42"); emp_name := None;
               emp_industries := Some [ {| ind_name := Some (PStr "IT") |} ] |};
     v_address := Some {| addr_city := Some (PStr "Kazan") |}; v_area := None;
     v_contacts :=
       Some {| c_name := None; c_email := Some (PStr "jobs@firm.example");
               c_phones := None |};
     v_professional_roles :=
       Some [ {| role_name := Some "Analyst" |}; {| role_name := Some "Developer" |} ];
     v_published_at := None |}.

Definition posting_no_contacts : Posting :=
  {| v_id := Some (PStr "203"); v_name := None; v_alternate_url := None;
     v_employer :=
       Some {| emp_id := Some (PStr "42"); emp_name := None;
               emp_industries := None |};
     v_address := None; v_area := None; v_contacts := None;
     v_professional_roles := None; v_published_at := None |}.

(** A second posting under the id of [posting_email_only], with other
    fields. *)
Definition posting_email_only_again : Posting :=
  {| v_id := Some (PStr "202"); v_name := Some (PStr "Integrator (edited)");
     v_alternate_url := None; v_employer := None;
     v_address := None; v_area := None;
     v_contacts :=
       Some {| c_name := None; c_email := Some (PStr "other@firm.example");
               c_phones := None |};
     v_professional_roles := None; v_published_at := None |}.

(** The row the filter makes of [posting_email_only]. *)
Definition row_202 : row :=
  {| id := PStr "202"; vacancy_name := PStr "Integrator"; url := PStr "";
     employer_id := PStr "42"; employer_name := PStr "Не указано";
     city := PStr "Kazan"; contact_name := PStr "";
     phones := PStr ""; email := PStr "jobs@firm.example";
     prof_roles := PStr "Analyst, Developer"; industry := PStr "IT";
     published_at := PStr "" |}.

Definition page_request (access_token date_from date_to : string) (page : Z)
  : request :=
  {| q_text := KEYWORD; q_per_page := 100; q_page := page;
     q_date_from := date_from; q_date_to := date_to;
     q_excluded_employer_id := EXCLUDED_EMPLOYEE_IDS;
     q_bearer := access_token |}.

(** The integers [page], [page + 1], ..., [n] of them. *)
Definition count_from (page : Z) (n : nat) : list Z :=
  map (fun k => page + Z.of_nat k) (seq 0 n).

(** An upstream that always has one more full page to give. *)
Definition endless : nat -> request -> response :=
  fun _ _ => Json {| d_items := Some [posting_no_contacts];
                     d_pages := Some 1000000 |}.

(** The reading of C3 as it stands: the call hands back, as an integer, the
    number of rows the window added to the table. *)
Definition returns_saved_count (upstream : nat -> request -> response)
    (fuel : nat) (access_token date_from date_to : string) (w : world) : Prop :=
  exists w',
    parse_by_date_range upstream fuel access_token date_from date_to w
    = Some (Return (ObjInt (len (db w') - len (db w))), w').

(** One page holding the posting of the excluded employer 3177. *)
Definition one_excluded : nat -> request -> response :=
  fun _ _ => Json {| d_items := Some [posting_3177]; d_pages := Some 1 |}.

(** Two pages: the accepted [posting_email_only], then the rejected
    [posting_no_contacts]. *)
Definition two_pages : nat -> request -> response :=
  fun _ q =>
    if q_page q =? 0 then
      Json {| d_items := Some [posting_email_only]; d_pages := Some 2 |}
    else Json {| d_items := Some [posting_no_contacts]; d_pages := Some 2 |}.

(** An upstream that never sends [pages]. *)
Definition no_pages_field : nat -> request -> response :=
  fun _ _ =>
    Json {| d_items := Some [posting_email_only; posting_no_contacts;
                             posting_3177];
            d_pages := None |}.

(** Days of the range that come before window [i]: [days_per_part] for
    each earlier window and one more for each of the first [remainder]. *)
Definition offset (days_per_part remainder i : Z) : Z :=
  i * days_per_part + Z.min i remainder.

Definition window_at (dt_start days_per_part remainder i : Z) : window :=
  {| w_start := dt_start + offset days_per_part remainder i;
     w_end := dt_start + offset days_per_part remainder (i + 1) - 1 |}.

(** The windows [ws], in order, tile the days [s .. e]: the first starts at
    [s], each next one starts the day after the one before ends, none is
    empty, and the last ends at [e]. *)
Fixpoint tiles (s e : Z) (ws : list window) : Prop :=
  match ws with
  | [] => s = e + 1
  | x :: ws' => w_start x = s /\ w_start x <= w_end x /\ tiles (w_end x + 1) e ws'
  end.

(** The reading of C2 as it stands in its count: the run walks exactly
    [parts] windows. *)
Definition walks_parts_windows (upstream : nat -> request -> response)
    (fuel : nat) (access_token date_from date_to : string) (parts : Z)
    (w : world) : Prop :=
  exists ws o w',
    parse_with_parts upstream fuel access_token date_from date_to parts w
    = Some (ws, o, w')
    /\ len ws = parts.

(** ** Vocabulary of the further properties *)

(** A row carries a contact: an email, or a phones column that is not
    empty. *)
Definition row_has_contact (r : row) : Prop :=
  truthy (email r) = true \/ phones r <> PStr "".

(** A row as the loop body lets it through: its employer is not excluded
    and it carries a contact. *)
Definition row_admissible (r : row) : Prop :=
  excluded_employer (employer_id r) = false /\ row_has_contact r.

(** The postings an answer carries. *)
Definition items_of (a : response) : list Posting :=
  match a with
  | Json data => or_default (d_items data) []
  | HttpFailure => []
  end.

(** The answers to the [n] requests of a walk that starts at [page] when
    [k] requests have been issued before. *)
Definition answers (upstream : nat -> request -> response)
    (access_token date_from date_to : string) (k : nat) (page : Z) (n : nat)
  : list response :=
  map (fun j => upstream (k + j)%nat
                  (page_request access_token date_from date_to
                     (page + Z.of_nat j)))
    (seq 0 n).

(** A posting the filter accepts whose [id] is JSON null. *)
Definition posting_null_id : Posting :=
  {| v_id := Some PNone; v_name := Some (PStr "Operator");
     v_alternate_url := None; v_employer := None;
     v_address := None; v_area := Some {| area_name := Some (PStr "Omsk") |};
     v_contacts :=
       Some {| c_name := None; c_email := Some (PStr "desk@shop.example");
               c_phones := None |};
     v_professional_roles := None; v_published_at := None |}.

(** An upstream of [pages] full pages for every window. *)
Definition steady (pages : Z) : nat -> request -> response :=
  fun _ _ => Json {| d_items := Some [posting_email_only; posting_no_contacts];
                     d_pages := Some pages |}.

(** An upstream whose third request fails. *)
Definition fails_third : nat -> request -> response :=
  fun k _ =>
    if Nat.eqb k 2 then HttpFailure
    else Json {| d_items := Some [posting_email_only]; d_pages := Some 9 |}.

(** The request for [page] of a window: the start of its first day to the
    end of its last day. *)
Definition window_request (access_token : string) (x : window) (page : Z)
  : request :=
  page_request access_token (strftime (w_start x) "T00:00:00")
    (strftime (w_end x) "T23:59:59") page.

(** ** [parse_last_1_months] *)

(** [now] is the date of [datetime.now()]; the time of day it carries is
    dropped by [strftime("%Y-%m-%d")]. *)
Definition parse_last_1_months (upstream : nat -> request -> response)
    (fuel : nat) (access_token : string) (now : datetime) (parts : Z)
    (w : world) : option (list window * outcome * world) :=
  let today := now in
  match add_days today (- 60) with
  | None => Some ([], Raise OverflowError, w)
  | Some three_months_ago =>
      let date_from := strftime three_months_ago "" in
      let date_to := strftime today "" in
      parse_with_parts upstream fuel access_token date_from date_to parts w
  end.

(** The part of [ord2ymd] that follows the split into 400-year cycles:
    [ord2ymd n] is [ord2ymd_cycle ((n - 1) / DI400Y) ((n - 1) mod DI400Y)]. *)
Definition ord2ymd_cycle (n400 n : Z) : Z * Z * Z :=
  let year := n400 * 400 + 1 in
  let n100 := n / DI100Y in
  let n := n mod DI100Y in
  let n4 := n / DI4Y in
  let n := n mod DI4Y in
  let n1 := n / 365 in
  let n := n mod 365 in
  let year := year + n100 * 100 + n4 * 4 + n1 in
  if (n1 =? 4) || (n100 =? 4) then (year - 1, 12, 31)
  else
    let leapyear := (n1 =? 3) && (negb (n4 =? 24) || (n100 =? 3)) in
    let month := Z.shiftr (n + 50) 5 in
    let preceding :=
      nth (Z.to_nat month) DAYS_BEFORE_MONTH 0
      + (if (month >? 2) && leapyear then 1 else 0) in
    if preceding >? n then
      let month := month - 1 in
      let preceding :=
        preceding
        - (nth (Z.to_nat month) DAYS_IN_MONTH 0
           + (if (month =? 2) && leapyear then 1 else 0)) in
      (year, month, n - preceding + 1)
    else (year, month, n - preceding + 1).

(** A day of the first 400 years is rendered as a date of the calendar
    that reads back as that day. *)
Definition cycle_day_ok (n : Z) : bool :=
  let '(y, m, d) := ord2ymd n in
  (ymd2ord y m d =? n) && (1 <=? y) && (y <=? 400)
  && (1 <=? m) && (m <=? 12) && (1 <=? d) && (d <=? days_in_month y m)
  && ((145731 <? n) || (y <=? 399)).

(** [cycle_day_ok] on the [count] days from [n] on. *)
Fixpoint cycle_days_ok (n : Z) (count : nat) : bool :=
  match count with
  | O => true
  | S count' => cycle_day_ok n && cycle_days_ok (n + 1) count'
  end.

(** ** [export_to_google_sheets] *)

(** [str(eid)] *)
Definition str (z : Z) : string := NilZero.string_of_int (Z.to_int z).

(** [employer_id NOT IN (?, ..., ?)] as SQL reads it on one value: for
    NULL the test is NULL, which keeps no row. *)
Definition not_in (v : pyval) (params : list string) : bool :=
  match v with
  | PNone => false
  | PStr s => negb (existsb (String.eqb s) params)
  end.

(** The WHERE clause, which the query has when the list is not empty. *)
Definition where_clause (r : row) : bool :=
  match EXCLUDED_EMPLOYEE_IDS with
  | [] => true
  | _ :: _ => not_in (employer_id r) (map str EXCLUDED_EMPLOYEE_IDS)
  end.

(** [COALESCE(v, d)] *)
Definition coalesce (v : pyval) (d : string) : pyval :=
  match v with
  | PNone => PStr d
  | PStr _ => v
  end.

(** The columns of the SELECT, in its order. *)
Definition select_columns (r : row) : list pyval :=
  [ id r; vacancy_name r; city r; employer_id r; employer_name r;
    contact_name r; coalesce (phones r) ""; email r;
    prof_roles r; industry r; published_at r; url r ].

(** The order of TEXT values under ORDER BY: bytes compared in turn, NULL
    below every text. *)
Definition sql_le (a b : pyval) : bool :=
  match a, b with
  | PNone, _ => true
  | PStr _, PNone => false
  | PStr x, PStr y => String.leb x y
  end.

(** [ORDER BY published_at DESC]: no row is followed by one of a greater
    [published_at]. *)
Fixpoint descending (rows : list row) : Prop :=
  match rows with
  | [] => True
  | r :: rows' =>
      (forall r', In r' rows' ->
                  sql_le (published_at r') (published_at r) = true)
      /\ descending rows'
  end.

(** What [cursor.fetchall()] may give for a table: the rows the WHERE
    clause keeps, in an order that is descending in [published_at]; which
    of two rows of one [published_at] comes first is left open, as the
    query leaves it. *)
Definition fetched (t : table) (rows : list row) : Prop :=
  Permutation rows (filter where_clause t) /\ descending rows.

Definition headers : list string :=
  [ "ID"; "Вакансия"; "Город"; "Employer ID"; "Компания";
    "Контактное лицо"; "Телефон(ы)"; "Почта";
    "Проф. Роли"; "Отрасль"; "Дата публ."; "URL" ].

(** [data = [headers] + list(rows)], the values of the update. *)
Definition sheet_values (rows : list row) : list (list pyval) :=
  map PStr headers :: map select_columns rows.

(** One way to put the rows in order: insertion from the last row on,
    rows of one [published_at] keeping their table order. *)
Fixpoint insert_desc (r : row) (rows : list row) : list row :=
  match rows with
  | [] => [r]
  | x :: rows' =>
      if sql_le (published_at x) (published_at r) then r :: x :: rows'
      else x :: insert_desc r rows'
  end.

Definition order_desc (rows : list row) : list row :=
  fold_right insert_desc [] rows.

Definition has_employer_text (r : row) : bool :=
  match employer_id r with
  | PNone => false
  | PStr _ => true
  end.

(** A posting with contacts whose employer id is JSON null. *)
Definition posting_null_employer : Posting :=
  {| v_id := Some (PStr "305"); v_name := Some (PStr "Courier");
     v_alternate_url := None;
     v_employer :=
       Some {| emp_id := Some PNone; emp_name := Some (PStr "Hidden");
               emp_industries := None |};
     v_address := None; v_area := None;
     v_contacts :=
       Some {| c_name := None; c_email := Some (PStr "go@post.example");
               c_phones := None |};
     v_professional_roles := None;
     v_published_at := Some (PStr "2024-01-03T09:00:00+0300") |}.

(** ** The token of hh.ru *)

(** [hh_token.json], and the body of a token response: the two keys the
    program reads of it. *)
Record token_data := {
  td_access_token : field;
  td_refresh_token : field
}.

(** [d.get(key)], with no default. *)
Definition get_none (f : field) : pyval :=
  match f with
  | Some v => v
  | None => PNone
  end.

Definition HH_AUTHORIZATION_URL : string := "https://hh.ru/oauth/authorize".
Definition HH_TOKEN_URL : string := "https://api.hh.ru/token".
Definition STATE : string := "random_state_string".

(** A [requests.post(url, data=..., headers=...)] to a token endpoint, by
    its url and form fields. *)
Record token_request := {
  t_url : string;
  t_data : list (string * pyval)
}.

(** [TokenFailure]: [response.raise_for_status()] raises. *)
Inductive token_response : Type :=
| TokenFailure
| TokenJson (token : token_data).

(** What the token functions print and ask. *)
Inductive auth_line : Type :=
| SayOpenLink
| SayUrl (base : string) (params : list (string * string))
| SayCopyCode
| AskCode
| SaySaved (token_file : string)
| SayRefreshFailed.

(** The exceptions of [exn], and the KeyError of a token response without
    [access_token]. *)
Inductive failure : Type :=
| Exn (e : exn)
| KeyError.

Inductive result (A : Type) : Type :=
| Ok (a : A)
| Err (f : failure).

Arguments Ok {A} a.
Arguments Err {A} f.

(** The token file, the requests posted to the token endpoints and the
    console of the token functions, oldest first. *)
Record auth := {
  token_file : option token_data;
  posted : list token_request;
  console : list auth_line
}.

Definition say (l : auth_line) (a : auth) : auth :=
  {| token_file := token_file a; posted := posted a;
     console := console a ++ [l] |}.

Definition post (q : token_request) (a : auth) : auth :=
  {| token_file := token_file a; posted := posted a ++ [q];
     console := console a |}.

(** [json.dump(token_data, f)] into [hh_token.json]. *)
Definition write_token (token : token_data) (a : auth) : auth :=
  {| token_file := Some token; posted := posted a; console := console a |}.

(** The characters [str.strip()] takes off, among the first 128. *)
Definition is_space (c : ascii) : bool :=
  let n := nat_of_ascii c in
  ((9 <=? n) && (n <=? 13) || (28 <=? n) && (n <=? 32))%nat.

Fixpoint lstrip (s : string) : string :=
  match s with
  | String c s' => if is_space c then lstrip s' else s
  | EmptyString => EmptyString
  end.

Fixpoint rstrip (s : string) : string :=
  match s with
  | String c s' =>
      match rstrip s' with
      | EmptyString => if is_space c then EmptyString else String c EmptyString
      | rest => String c rest
      end
  | EmptyString => EmptyString
  end.

Definition strip (s : string) : string := rstrip (lstrip s).

Section Token.

(** The environment: the application's credentials, the token endpoints
    and what the user types at the prompt. *)
Variables HH_CLIENT_ID HH_CLIENT_SECRET HH_REDIRECT_URI : string.
Variable token_server : nat -> token_request -> token_response.
Variable typed : string.

Definition get_hh_token (a : auth) : result pyval * auth :=
  match token_file a with
  | Some token_data => (Ok (get_none (td_access_token token_data)), a)
  | None =>
      let params :=
        [ ("response_type", "code"); ("client_id", HH_CLIENT_ID);
          ("state", STATE); ("redirect_uri", HH_REDIRECT_URI) ] in
      let a := say SayOpenLink a in
      let a := say (SayUrl HH_AUTHORIZATION_URL params) a in
      let a := say SayCopyCode a in
      let a := say AskCode a in
      let code := strip typed in
      let data :=
        [ ("grant_type", PStr "authorization_code");
          ("client_id", PStr HH_CLIENT_ID);
          ("client_secret", PStr HH_CLIENT_SECRET);
          ("code", PStr code);
          ("redirect_uri", PStr HH_REDIRECT_URI) ] in
      let q := {| t_url := HH_TOKEN_URL; t_data := data |} in
      let answer := token_server (List.length (posted a)) q in
      let a := post q a in
      match answer with
      | TokenFailure => (Err (Exn HTTPError), a)
      | TokenJson token_data =>
          let a := write_token token_data a in
          let a := say (SaySaved "hh_token.json") a in
          (Ok (get_none (td_access_token token_data)), a)
      end
  end.

Definition refresh_hh_token (refresh_token : pyval) (a : auth)
  : result pyval * auth :=
  let token_url := "https://hh.ru/oauth/token" in
  let data :=
    [ ("grant_type", PStr "refresh_token");
      ("refresh_token", refresh_token);
      ("client_id", PStr HH_CLIENT_ID);
      ("client_secret", PStr HH_CLIENT_SECRET) ] in
  let q := {| t_url := token_url; t_data := data |} in
  let answer := token_server (List.length (posted a)) q in
  let a := post q a in
  match answer with
  | TokenFailure => (Ok PNone, say SayRefreshFailed a)
  | TokenJson token_data =>
      let a := write_token token_data a in
      match td_access_token token_data with
      | Some v => (Ok v, a)
      | None => (Err KeyError, a)
      end
  end.

Definition get_refresh_token (a : auth) : pyval :=
  match token_file a with
  | Some token_data => get_none (td_refresh_token token_data)
  | None => PNone
  end.

End Token.

(** ** [init_db] and [main] *)

(** [CREATE TABLE IF NOT EXISTS hh_vacancies]: [None] is a database file
    without the table. *)
Definition init_db (store : option table) : table := or_default store [].

(** What [main] prints itself, and what [export_to_google_sheets] prints. *)
Inductive note : Type :=
| NoteError (e : exn)
| NoteRowsUpdated (rows : Z).

(** The state [main] works on: the database file, the token file with the
    token traffic, the search requests and the output of the ingestion,
    the values uploaded to the sheet and the notes printed. *)
Record system := {
  store : option table;
  hh : auth;
  searches : list request;
  stdout : list line;
  uploaded : list (list (list pyval));
  notes : list note
}.

Section Main.

Variables HH_CLIENT_ID HH_CLIENT_SECRET HH_REDIRECT_URI : string.
Variable token_server : nat -> token_request -> token_response.
Variable typed : string.
Variable upstream : nat -> request -> response.
Variable fuel : nat.

(** The date of [datetime.now()]. *)
Variable now : datetime.

(** The answer of SQLite to the export query; the spreadsheet service is
    taken to accept the update it is sent. *)
Variable fetchall : table -> list row.

(** [None]: the ingestion ran out of fuel. *)
Definition main (s : system) : option (result unit * system) :=
  let t := init_db (store s) in
  match get_hh_token HH_CLIENT_ID HH_CLIENT_SECRET HH_REDIRECT_URI
          token_server typed (hh s) with
  | (Err f, a) =>
      Some (Err f,
            {| store := Some t; hh := a; searches := searches s;
               stdout := stdout s; uploaded := uploaded s;
               notes := notes s |})
  | (Ok access_token, a) =>
      let w := {| db := t; sent := searches s; out := stdout s |} in
      match parse_last_1_months upstream fuel (py_str access_token) now 20
              w with
      | None => None
      | Some (_, Return _, w) =>
          let rows := fetchall (db w) in
          Some (Ok tt,
                {| store := Some (db w); hh := a; searches := sent w;
                   stdout := out w;
                   uploaded := uploaded s ++ [sheet_values rows];
                   notes := notes s ++ [NoteRowsUpdated (len rows)] |})
      | Some (_, Raise HTTPError, w) =>
          let printed := notes s ++ [NoteError HTTPError] in
          match refresh_hh_token HH_CLIENT_ID HH_CLIENT_SECRET token_server
                  (get_refresh_token a) a with
          | (Ok _, a) =>
              Some (Err (Exn HTTPError),
                    {| store := Some (db w); hh := a; searches := sent w;
                       stdout := out w; uploaded := uploaded s;
                       notes := printed |})
          | (Err f, a) =>
              Some (Err f,
                    {| store := Some (db w); hh := a; searches := sent w;
                       stdout := out w; uploaded := uploaded s;
                       notes := printed |})
          end
      | Some (_, Raise e, w) =>
          Some (Err (Exn e),
                {| store := Some (db w); hh := a; searches := sent w;
                   stdout := out w; uploaded := uploaded s;
                   notes := notes s |})
      end
  end.

End Main.

(** The refresh request for a refresh token and credentials. *)
Definition refresh_request (HH_CLIENT_ID HH_CLIENT_SECRET : string)
    (refresh_token : pyval) : token_request :=
  {| t_url := "https://hh.ru/oauth/token";
     t_data := [ ("grant_type", PStr "refresh_token");
                 ("refresh_token", refresh_token);
                 ("client_id", PStr HH_CLIENT_ID);
                 ("client_secret", PStr HH_CLIENT_SECRET) ] |}.

(** A machine with no token file and no table yet, a token endpoint that
    grants, and one that grants a body without [access_token]. *)
Definition blank_auth : auth :=
  {| token_file := None; posted := []; console := [] |}.

Definition blank_system : system :=
  {| store := None; hh := blank_auth; searches := []; stdout := [];
     uploaded := []; notes := [] |}.

Definition granting : nat -> token_request -> token_response :=
  fun _ _ => TokenJson {| td_access_token := Some (PStr "abc");
                          td_refresh_token := Some (PStr "xyz") |}.

Definition first_search_fails : nat -> request -> response :=
  fun k _ =>
    if Nat.eqb k 0 then HttpFailure
    else Json {| d_items := Some [posting_email_only]; d_pages := Some 1 |}.

(** ** [parse_all_vacancies] *)

(** Its query has no date range and no exclusion list. *)
Record plain_request := {
  p_text : string;
  p_per_page : Z;
  p_page : Z;
  p_bearer : string
}.

Inductive plain_line : Type :=
| PlainNoMore
| PlainPage (page received total_saved : Z)
| PlainLastPage
| PlainCeiling
| PlainTotal (total_saved : Z).

Record plain_world := {
  pdb : table;
  psent : list plain_request;
  pout : list plain_line
}.

Definition plain_print (l : plain_line) (w : plain_world) : plain_world :=
  {| pdb := pdb w; psent := psent w; pout := pout w ++ [l] |}.

Definition plain_issue (q : plain_request) (w : plain_world) : plain_world :=
  {| pdb := pdb w; psent := psent w ++ [q]; pout := pout w |}.

Definition plain_with_db (t : table) (w : plain_world) : plain_world :=
  {| pdb := t; psent := psent w; pout := pout w |}.

Definition plain_page_request (access_token : string) (page : Z)
  : plain_request :=
  {| p_text := KEYWORD; p_per_page := 100; p_page := page;
     p_bearer := access_token |}.

Section AllVacancies.

Variable plain_upstream : nat -> plain_request -> response.

(** The [while True] loop of [parse_all_vacancies], on fuel. *)
Fixpoint all_loop (fuel : nat) (access_token : string)
    (page per_page total_saved : Z) (w : plain_world)
  : option (outcome * plain_world) :=
  match fuel with
  | O => None
  | S fuel' =>
      let params :=
        {| p_text := KEYWORD; p_per_page := per_page; p_page := page;
           p_bearer := access_token |} in
      let answer := plain_upstream (List.length (psent w)) params in
      let w := plain_issue params w in
      match answer with
      | HttpFailure => Some (Raise HTTPError, w)
      | Json data =>
          let vacancies := or_default (d_items data) [] in
          match vacancies with
          | [] =>
              let w := plain_print PlainNoMore w in
              Some (Return ObjNone, plain_print (PlainTotal total_saved) w)
          | _ :: _ =>
              let w := plain_with_db (save_to_db (pdb w) vacancies) w in
              let total_saved := total_saved + len vacancies in
              let w :=
                plain_print (PlainPage page (len vacancies) total_saved) w in
              let page := page + 1 in
              if page >=? or_default (d_pages data) 1 then
                let w := plain_print PlainLastPage w in
                Some (Return ObjNone, plain_print (PlainTotal total_saved) w)
              else if page >=? 200 then
                let w := plain_print PlainCeiling w in
                Some (Return ObjNone, plain_print (PlainTotal total_saved) w)
              else
                all_loop fuel' access_token page per_page total_saved w
          end
      end
  end.

Definition parse_all_vacancies (fuel : nat) (access_token : string)
    (w : plain_world) : option (outcome * plain_world) :=
  let page := 0 in
  let per_page := 100 in
  let total_saved := 0 in
  all_loop fuel access_token page per_page total_saved w.

End AllVacancies.

(** The answers to the [n] requests of [parse_all_vacancies] from [page]
    on, when [k] requests went before. *)
Definition plain_answers (plain_upstream : nat -> plain_request -> response)
    (access_token : string) (k : nat) (page : Z) (n : nat) : list response :=
  map (fun j => plain_upstream (k + j)%nat
                  (plain_page_request access_token (page + Z.of_nat j)))
    (seq 0 n).

(** A keyword search that always has two postings more. *)
Definition plain_endless : nat -> plain_request -> response :=
  fun _ _ => Json {| d_items := Some [posting_email_only; posting_3177];
                     d_pages := Some 5000 |}.

Definition plain_empty_world : plain_world :=
  {| pdb := []; psent := []; pout := [] |}.

(** * Properties *)

(** ** The store *)

Lemma key_conflict_text (a : pyval) (s : string) :
  key_conflict a (PStr s) = true <-> a = PStr s.
Proof.
  destruct a as [|x]; simpl.
  - split; discriminate.
  - rewrite String.eqb_eq. split; congruence.
Qed.

Lemma key_conflict_null (a : pyval) : key_conflict a PNone = false.
Proof. destruct a; reflexivity. Qed.

Lemma text_ids_app (t u : table) :
  text_ids (t ++ u) = text_ids t ++ text_ids u.
Proof.
  induction t as [|r t IH]; simpl; [reflexivity|].
  destruct (id r); simpl; rewrite IH; reflexivity.
Qed.

Lemma text_ids_In (t : table) (s : string) :
  In s (text_ids t) <-> exists r, In r t /\ id r = PStr s.
Proof.
  induction t as [|r t IH]; simpl.
  - split; [tauto | intros (r & [] & _)].
  - destruct (id r) as [|x] eqn:E; simpl; rewrite IH; split.
    + intros (r0 & H & H0). eauto.
    + intros (r0 & [<- | H] & H0); [congruence | eauto].
    + intros [<- | (r0 & H & H0)]; eauto.
    + intros (r0 & [<- | H] & H0); [left; congruence | right; eauto].
Qed.

Lemma conflict_iff (db : table) (r : row) (s : string) :
  id r = PStr s ->
  existsb (fun r0 => key_conflict (id r0) (id r)) db = true
  <-> In s (text_ids db).
Proof.
  intros E. rewrite E, existsb_exists, text_ids_In.
  split; intros (r0 & H & H0); exists r0; split; trivial;
    now apply key_conflict_text.
Qed.

Lemma insert_null (db : table) (r : row) :
  id r = PNone -> insert_or_ignore db r = db ++ [r].
Proof.
  intros E. unfold insert_or_ignore. rewrite E.
  replace (existsb _ db) with false; [reflexivity|].
  symmetry. induction db as [|r0 db IH]; simpl; [reflexivity|].
  now rewrite key_conflict_null.
Qed.

Lemma insert_present (db : table) (r : row) (s : string) :
  id r = PStr s -> In s (text_ids db) -> insert_or_ignore db r = db.
Proof.
  intros E H. unfold insert_or_ignore.
  apply (conflict_iff db r s E) in H. now rewrite H.
Qed.

Lemma insert_fresh (db : table) (r : row) (s : string) :
  id r = PStr s -> ~ In s (text_ids db) -> insert_or_ignore db r = db ++ [r].
Proof.
  intros E H. unfold insert_or_ignore.
  destruct (existsb _ db) eqn:X; [|reflexivity].
  apply (conflict_iff db r s E) in X. contradiction.
Qed.

Lemma insert_cases (db : table) (r : row) :
  insert_or_ignore db r = db ++ [r]
  \/ insert_or_ignore db r = db
     /\ exists r0, In r0 db /\ key_conflict (id r0) (id r) = true.
Proof.
  unfold insert_or_ignore.
  destruct (existsb _ db) eqn:X; [right | now left].
  split; [reflexivity|]. now apply existsb_exists in X.
Qed.

Lemma insert_extends (db : table) (r : row) :
  exists added, insert_or_ignore db r = db ++ added.
Proof.
  destruct (insert_cases db r) as [-> | [-> _]].
  - now exists [r].
  - exists []. now rewrite app_nil_r.
Qed.

Lemma insert_unique (db : table) (r : row) :
  ids_unique db -> ids_unique (insert_or_ignore db r).
Proof.
  unfold ids_unique. intros U.
  destruct (id r) as [|s] eqn:E.
  - rewrite insert_null, text_ids_app by assumption.
    simpl. rewrite E, app_nil_r. assumption.
  - destruct (in_dec string_dec s (text_ids db)) as [H|H].
    + now rewrite (insert_present db r s).
    + rewrite (insert_fresh db r s), text_ids_app by assumption.
      simpl. rewrite E. apply NoDup_app; simpl.
      * assumption.
      * repeat constructor. tauto.
      * intros x Hx [<- | []]. contradiction.
Qed.

Lemma save_one_extends (db : table) (vac : Posting) :
  exists added, save_one db vac = db ++ added.
Proof.
  unfold save_one. destruct (record_filter vac).
  - apply insert_extends.
  - exists []. now rewrite app_nil_r.
Qed.

Lemma save_to_db_app (db : table) (xs ys : list Posting) :
  save_to_db db (xs ++ ys) = save_to_db (save_to_db db xs) ys.
Proof. apply fold_left_app. Qed.

Lemma save_to_db_cons (db : table) (vac : Posting) (xs : list Posting) :
  save_to_db db (vac :: xs) = save_to_db (save_one db vac) xs.
Proof. reflexivity. Qed.

Lemma save_to_db_extends (db : table) (vacancies : list Posting) :
  exists added, save_to_db db vacancies = db ++ added.
Proof.
  revert db. induction vacancies as [|vac xs IH]; intros db.
  - exists []. simpl. now rewrite app_nil_r.
  - rewrite save_to_db_cons.
    destruct (save_one_extends db vac) as [a ->].
    destruct (IH (db ++ a)) as [b ->].
    exists (a ++ b). now rewrite app_assoc.
Qed.

Lemma save_one_unique (db : table) (vac : Posting) :
  ids_unique db -> ids_unique (save_one db vac).
Proof.
  unfold save_one. destruct (record_filter vac); [apply insert_unique | trivial].
Qed.

Lemma save_to_db_unique (db : table) (vacancies : list Posting) :
  ids_unique db -> ids_unique (save_to_db db vacancies).
Proof.
  revert db. induction vacancies as [|vac xs IH]; intros db U; [exact U|].
  rewrite save_to_db_cons. apply IH, save_one_unique, U.
Qed.

(** A batch adds at most one row per posting. *)
Lemma save_to_db_grows (db : table) (vacancies : list Posting) :
  len db <= len (save_to_db db vacancies) <= len db + len vacancies.
Proof.
  unfold len. revert db.
  induction vacancies as [|vac xs IH]; intros db.
  - simpl. lia.
  - rewrite save_to_db_cons. specialize (IH (save_one db vac)).
    change (List.length (vac :: xs)) with (S (List.length xs)).
    assert (List.length db <= List.length (save_one db vac)
            <= S (List.length db))%nat.
    { unfold save_one. destruct (record_filter vac); [|lia].
      destruct (insert_cases db r) as [-> | [-> _]]; [|lia].
      rewrite length_app. simpl. lia. }
    lia.
Qed.

Lemma rows_with_id_In (s : string) (t : table) (r : row) :
  In r (rows_with_id s t) <-> In r t /\ id r = PStr s.
Proof.
  unfold rows_with_id. rewrite filter_In. now rewrite key_conflict_text.
Qed.

Lemma rows_with_id_absent (s : string) (t : table) :
  ~ In s (text_ids t) -> rows_with_id s t = [].
Proof.
  intros H. destruct (rows_with_id s t) as [|r l] eqn:E; [reflexivity|].
  exfalso. apply H, text_ids_In. exists r.
  apply rows_with_id_In. rewrite E. now left.
Qed.

Lemma rows_with_id_app (s : string) (t u : table) :
  rows_with_id s (t ++ u) = rows_with_id s t ++ rows_with_id s u.
Proof. apply filter_app. Qed.

(** Under the key constraint, the rows of an id already there stay what
    they are whatever is appended. *)
Lemma rows_with_id_stable (s : string) (t added : table) :
  ids_unique (t ++ added) -> In s (text_ids t) ->
  rows_with_id s (t ++ added) = rows_with_id s t.
Proof.
  intros U H. rewrite rows_with_id_app, (rows_with_id_absent s added).
  - apply app_nil_r.
  - intros H'. unfold ids_unique in U. rewrite text_ids_app in U.
    revert H H' U. generalize (text_ids t) (text_ids added).
    intros l m Hl Hm U. induction l as [|x l IH]; [easy|].
    simpl in U. inversion U as [|? ? N U']; subst.
    destruct Hl as [-> | Hl].
    + apply N, in_or_app. now right.
    + now apply IH.
Qed.

Lemma rows_with_id_unique (s : string) (t : table) (r0 : row) :
  ids_unique t -> In r0 t -> id r0 = PStr s -> rows_with_id s t = [r0].
Proof.
  unfold ids_unique. induction t as [|r t IH]; intros U H E; [easy|].
  simpl in U. simpl rows_with_id. destruct H as [-> | H].
  - rewrite E in *. simpl. rewrite String.eqb_refl.
    inversion U; subst. now rewrite rows_with_id_absent.
  - assert (Hs : In s (text_ids t)) by (apply text_ids_In; eauto).
    destruct (id r) as [|x] eqn:Er; simpl.
    + now apply IH.
    + inversion U as [|? ? N U']; subst.
      destruct (String.eqb x s) eqn:X.
      * apply String.eqb_eq in X. subst. contradiction.
      * now apply IH.
Qed.

Lemma rows_with_id_length (s : string) (t : table) :
  ids_unique t -> (List.length (rows_with_id s t) <= 1)%nat.
Proof.
  intros U. destruct (in_dec string_dec s (text_ids t)) as [H|H].
  - apply text_ids_In in H. destruct H as (r & H & E).
    rewrite (rows_with_id_unique s t r); simpl; auto.
  - rewrite rows_with_id_absent; simpl; auto.
Qed.

Lemma insert_holds_id (db : table) (r : row) (s : string) :
  id r = PStr s -> In s (text_ids (insert_or_ignore db r)).
Proof.
  intros E. destruct (in_dec string_dec s (text_ids db)) as [H|H].
  - now rewrite (insert_present db r s).
  - rewrite (insert_fresh db r s), text_ids_app by assumption.
    apply in_or_app. right. simpl. rewrite E. now left.
Qed.

Lemma save_to_db_keeps_id (db : table) (vacancies : list Posting) (s : string) :
  In s (text_ids db) -> In s (text_ids (save_to_db db vacancies)).
Proof.
  intros H. destruct (save_to_db_extends db vacancies) as [a ->].
  rewrite text_ids_app. apply in_or_app. now left.
Qed.

Lemma save_to_db_keeps_row (db : table) (vacancies : list Posting) (r : row) :
  In r db -> In r (save_to_db db vacancies).
Proof.
  intros H. destruct (save_to_db_extends db vacancies) as [a ->].
  apply in_or_app. now left.
Qed.

(** ** The record filter *)

Lemma excluded_employer_true (s : string) :
  isdigit s = true -> In (int s) EXCLUDED_EMPLOYEE_IDS ->
  excluded_employer (PStr s) = true.
Proof.
  intros D H. unfold excluded_employer. rewrite D.
  unfold isdigit in D. apply andb_true_iff in D. destruct D as [D _].
  simpl truthy. rewrite D. simpl andb.
  unfold in_list. apply existsb_exists. exists (int s).
  split; [assumption | apply Z.eqb_refl].
Qed.

(** The test reads digit strings only: a sign, a blank or an empty id is
    not looked up in the list. *)
Example excluded_employer_digits_only :
  excluded_employer (PStr "3177") = true
  /\ excluded_employer (PStr "003177") = true
  /\ excluded_employer (PStr "+3177") = false
  /\ excluded_employer (PStr " 3177") = false
  /\ excluded_employer (PStr "") = false
  /\ excluded_employer PNone = false
  /\ excluded_employer (PStr "42") = false.
Proof. repeat split; reflexivity. Qed.

Lemma record_filter_excluded (vac : Posting) :
  excluded_employer (posting_employer_id vac) = true ->
  record_filter vac = None.
Proof.
  unfold record_filter, posting_employer_id. intros ->. reflexivity.
Qed.

Lemma record_filter_no_contact (vac : Posting) :
  truthy (posting_email vac) = false ->
  existsb phone_has_number (posting_phones vac) = false ->
  record_filter vac = None.
Proof.
  unfold record_filter, posting_email, posting_phones. intros He Hp.
  destruct (excluded_employer _); [reflexivity|].
  destruct (v_contacts vac) as [c|]; cbv zeta; simpl in *;
    rewrite ?He, ?Hp; reflexivity.
Qed.

Lemma record_filter_accepts (vac : Posting) :
  excluded_employer (posting_employer_id vac) = false ->
  truthy (posting_email vac)
  || existsb phone_has_number (posting_phones vac) = true ->
  exists r,
    record_filter vac = Some r
    /\ id r = get (v_id vac) ""
    /\ employer_id r = posting_employer_id vac
    /\ email r = posting_email vac
    /\ phones r = PStr (join nl (map phone_full (posting_phones vac))).
Proof.
  unfold record_filter, posting_employer_id, posting_email, posting_phones.
  intros -> G.
  destruct (v_contacts vac) as [c|]; cbv zeta; simpl in *.
  - rewrite <- negb_orb, G. simpl. eexists. split; [reflexivity|].
    simpl. auto.
  - discriminate.
Qed.

Lemma record_filter_Some (vac : Posting) (r : row) :
  record_filter vac = Some r ->
  excluded_employer (posting_employer_id vac) = false
  /\ truthy (posting_email vac)
     || existsb phone_has_number (posting_phones vac) = true
  /\ id r = get (v_id vac) "".
Proof.
  intros H.
  destruct (excluded_employer (posting_employer_id vac)) eqn:X.
  { now rewrite record_filter_excluded in H. }
  destruct (truthy (posting_email vac)
            || existsb phone_has_number (posting_phones vac)) eqn:G.
  - destruct (record_filter_accepts vac X G) as (r' & E & I & _).
    rewrite E in H. injection H as <-. auto.
  - apply orb_false_iff in G. destruct G as [G1 G2].
    now rewrite record_filter_no_contact in H.
Qed.

Lemma save_one_rejected (db : table) (vac : Posting) :
  record_filter vac = None -> save_one db vac = db.
Proof. unfold save_one. now intros ->. Qed.

Lemma save_to_db_skip (db : table) (pre post : list Posting) (vac : Posting) :
  (forall t, save_one t vac = t) ->
  save_to_db db (pre ++ vac :: post) = save_to_db db (pre ++ post).
Proof.
  intros H. rewrite !save_to_db_app, save_to_db_cons, H. reflexivity.
Qed.






Example record_filter_email_only :
  record_filter posting_email_only = Some row_202.
Proof. reflexivity. Qed.


Lemma save_one_duplicate (db : table) (vac : Posting) (r : row) (s : string) :
  record_filter vac = Some r -> id r = PStr s -> In s (text_ids db) ->
  save_one db vac = db.
Proof.
  intros R E H. unfold save_one. rewrite R. now apply (insert_present db r s).
Qed.



(** ** The range walker *)

Lemma count_from_S (page : Z) (n : nat) :
  count_from page (S n) = page :: count_from (page + 1) n.
Proof.
  unfold count_from. simpl. rewrite Z.add_0_r. f_equal.
  rewrite <- seq_shift, map_map. apply map_ext. intros k. lia.
Qed.

Section WalkerFacts.

Variable upstream : nat -> request -> response.
Variables access_token date_from date_to : string.

(** What a finished walk has done: the requests are consecutive pages
    below the ceiling, the table has only grown, by no more rows than the
    total went up, and a normal return hands back [None] after printing
    the total as its last line. *)
Lemma walk_loop_sound (fuel : nat) :
  forall (page total_saved : Z) (w w' : world) (o : outcome),
    0 <= page < 200 ->
    walk_loop upstream fuel access_token date_from date_to page total_saved w
    = Some (o, w') ->
    exists (n : nat) (added : table) (t : Z),
      (1 <= n)%nat /\ page + Z.of_nat n <= 200
      /\ sent w' = sent w
                   ++ map (page_request access_token date_from date_to)
                        (count_from page n)
      /\ db w' = db w ++ added
      /\ len added <= t - total_saved
      /\ match o with
         | Return v =>
             v = ObjNone
             /\ exists lines,
                  out w' = out w ++ lines
                           ++ [LineTotal t date_from date_to]
         | Raise e => e = HTTPError
         end.
Proof.
  induction fuel as [|fuel IH]; intros page total w w' o Hp H;
    [discriminate H|].
  simpl in H. fold (page_request access_token date_from date_to page) in H.
  destruct (upstream _ _) as [|data].
  { injection H as <- <-. exists 1%nat, [], total.
    rewrite count_from_S. unfold len. simpl.
    rewrite app_nil_r. repeat split; trivial; lia. }
  destruct (or_default (d_items data) []) as [|x xs] eqn:Items.
  { injection H as <- <-. exists 1%nat, [], total.
    rewrite count_from_S. unfold len. simpl.
    rewrite app_nil_r. repeat split; trivial; try lia.
    exists [LineNoMore date_from date_to]. now rewrite <- app_assoc. }
  remember (x :: xs) as vacancies eqn:Hv. clear Hv Items x xs.
  destruct (save_to_db_extends (db w) vacancies) as [added Ext].
  assert (G : len added <= len vacancies).
  { pose proof (save_to_db_grows (db w) vacancies) as G.
    rewrite Ext in G. unfold len in *. rewrite length_app in G. lia. }
  destruct (page + 1 >=? or_default (d_pages data) 1) eqn:Last.
  { injection H as <- <-. exists 1%nat, added, (total + len vacancies).
    rewrite count_from_S. simpl. repeat split; trivial; try lia.
    eexists [_; _]. rewrite <- !app_assoc. reflexivity. }
  destruct (page + 1 >=? 200) eqn:Ceil.
  { injection H as <- <-. exists 1%nat, added, (total + len vacancies).
    rewrite count_from_S. simpl. repeat split; trivial; try lia.
    eexists [_; _]. rewrite <- !app_assoc. reflexivity. }
  apply IH in H; [|lia].
  destruct H as (n & added' & t & Hn & Hb & Hs & Hd & Ht & Ho).
  simpl in Hs, Hd, Ho.
  exists (S n), (added ++ added'), t.
  rewrite count_from_S. simpl map.
  repeat split; try lia.
  - rewrite Hs, <- app_assoc. reflexivity.
  - rewrite Hd, Ext, <- app_assoc. reflexivity.
  - unfold len in *. rewrite length_app. lia.
  - destruct o as [v|e]; [|exact Ho].
    destruct Ho as [-> (lines & Ho)]. split; [reflexivity|].
    eexists (_ :: lines). rewrite Ho, <- !app_assoc. reflexivity.
Qed.

(** The loop is done within [200 - page] iterations. *)
Lemma walk_loop_terminates (fuel : nat) :
  forall (page total_saved : Z) (w : world),
    0 <= page < 200 ->
    (Z.to_nat (200 - page) <= fuel)%nat ->
    exists o w',
      walk_loop upstream fuel access_token date_from date_to page
        total_saved w = Some (o, w').
Proof.
  induction fuel as [|fuel IH]; intros page total w Hp Hf; [lia|].
  simpl.
  destruct (upstream _ _) as [|data]; [eauto|].
  destruct (or_default (d_items data) []) as [|x xs]; [eauto|].
  destruct (page + 1 >=? or_default (d_pages data) 1); [eauto|].
  destruct (page + 1 >=? 200) eqn:Ceil; [eauto|].
  apply IH; lia.
Qed.

(** More fuel than a walk needs changes nothing. *)
Lemma walk_loop_more_fuel (fuel : nat) :
  forall (fuel' : nat) (page total_saved : Z) (w : world) res,
    (fuel <= fuel')%nat ->
    walk_loop upstream fuel access_token date_from date_to page total_saved w
    = Some res ->
    walk_loop upstream fuel' access_token date_from date_to page total_saved w
    = Some res.
Proof.
  induction fuel as [|fuel IH]; intros fuel' page total w res Hf H;
    [discriminate H|].
  destruct fuel' as [|fuel']; [lia|].
  simpl in *.
  destruct (upstream _ _) as [|data]; [exact H|].
  destruct (or_default (d_items data) []) as [|x xs]; [exact H|].
  destruct (page + 1 >=? or_default (d_pages data) 1); [exact H|].
  destruct (page + 1 >=? 200); [exact H|].
  apply IH; [lia | exact H].
Qed.

End WalkerFacts.

(** C4 (ceiling): whatever the upstream answers, a walk over one window
    runs to its end within 200 iterations, and the requests it issues are
    the pages 0, 1, ..., n - 1 for some n between 1 and 200. *)
Theorem page_ceiling (upstream : nat -> request -> response) (fuel : nat)
    (access_token date_from date_to : string) (w : world) :
  (200 <= fuel)%nat ->
  exists o w' n,
    parse_by_date_range upstream fuel access_token date_from date_to w
    = Some (o, w')
    /\ (1 <= n <= 200)%nat
    /\ sent w' = sent w
                 ++ map (page_request access_token date_from date_to)
                      (count_from 0 n).
Proof.
  intros Hf. unfold parse_by_date_range.
  destruct (walk_loop_terminates upstream access_token date_from date_to fuel
              0 0 (print (LineRangeStart date_from date_to) w))
    as (o & w' & E); [lia | simpl; lia |].
  exists o, w'.
  destruct (walk_loop_sound upstream access_token date_from date_to fuel
              0 0 _ w' o ltac:(lia) E) as (n & _ & _ & Hn & Hb & Hs & _).
  exists n. split; [exact E|]. split; [lia | exact Hs].
Qed.

Lemma page_ceiling_witness :
  exists o w' n,
    parse_by_date_range endless 200 "token" "2024-01-01T00:00:00"
      "2024-01-04T23:59:59" empty_world = Some (o, w')
    /\ (1 <= n <= 200)%nat
    /\ sent w' = sent empty_world
                 ++ map (page_request "token" "2024-01-01T00:00:00"
                           "2024-01-04T23:59:59")
                      (count_from 0 n).
Proof. apply (page_ceiling endless 200). apply le_n. Defined.

(** Against [endless] the walk stops at the ceiling, after request 200. *)
Example ceiling_is_reached :
  exists w',
    parse_by_date_range endless 1000 "token" "2024-01-01T00:00:00"
      "2024-01-04T23:59:59" empty_world = Some (Return ObjNone, w')
    /\ List.length (sent w') = 200%nat
    /\ map q_page (sent w') = count_from 0 200
    /\ In LineCeiling (out w').
Proof.
  eexists. split; [vm_compute; reflexivity|].
  split; [reflexivity|]. split; [reflexivity|].
  vm_compute. tauto.
Qed.

(** C3, as stated, fails: on a window whose only posting is rejected, the
    call hands back [None], not a count, and the total it prints is 1 while
    no row was stored. *)
Lemma walker_count_counterexample :
  (exists w',
     parse_by_date_range one_excluded 200 "token" "2024-01-01T00:00:00"
       "2024-01-04T23:59:59" empty_world = Some (Return ObjNone, w')
     /\ db w' = []
     /\ last (out w') LineCeiling
        = LineTotal 1 "2024-01-01T00:00:00" "2024-01-04T23:59:59")
  /\ ~ returns_saved_count one_excluded 200 "token" "2024-01-01T00:00:00"
         "2024-01-04T23:59:59" empty_world.
Proof.
  split.
  - eexists. split; [vm_compute; reflexivity|]. split; reflexivity.
  - intros (w' & H). vm_compute in H. discriminate H.
Qed.

(** C3 (amended): [parse_by_date_range] hands back no value.  A walk only
    appends rows to the table; when it returns, the last line it printed
    gives an integer total for the window, and the rows the walk added are
    no more than that total.  When it does not return, it raised the
    upstream's error. *)
Theorem walker_reports_total (upstream : nat -> request -> response)
    (fuel : nat) (access_token date_from date_to : string) (w w' : world)
    (o : outcome) :
  parse_by_date_range upstream fuel access_token date_from date_to w
  = Some (o, w') ->
  exists added,
    db w' = db w ++ added
    /\ match o with
       | Return v =>
           v = ObjNone
           /\ exists lines t,
                out w' = out w ++ lines ++ [LineTotal t date_from date_to]
                /\ len added <= t
       | Raise e => e = HTTPError
       end.
Proof.
  unfold parse_by_date_range. intros H.
  apply walk_loop_sound in H; [|lia].
  destruct H as (n & added & t & _ & _ & _ & Hd & Ht & Ho).
  exists added. split; [exact Hd|].
  destruct o as [v|e]; [|exact Ho].
  destruct Ho as [-> (lines & Ho)]. split; [reflexivity|].
  exists (LineRangeStart date_from date_to :: lines), t.
  split; [|lia]. rewrite Ho. simpl. rewrite <- app_assoc. reflexivity.
Qed.

Lemma walker_reports_total_witness :
  exists w',
    parse_by_date_range two_pages 5 "token" "a" "b" empty_world
    = Some (Return ObjNone, w')
    /\ exists added,
         db w' = db empty_world ++ added
         /\ ObjNone = ObjNone
            /\ exists lines t,
                 out w' = out empty_world ++ lines ++ [LineTotal t "a" "b"]
                 /\ len added <= t.
Proof.
  eexists. split; [vm_compute; reflexivity|].
  apply (walker_reports_total two_pages 5 "token" "a" "b" empty_world _
           (Return ObjNone)).
  vm_compute. reflexivity.
Defined.

(** A page with postings and no [pages] field ends the walk, at whatever
    page it comes. *)
Lemma walk_loop_no_pages_field (upstream : nat -> request -> response)
    (fuel : nat) (access_token date_from date_to : string)
    (page total_saved : Z) (w : world) (x : Posting) (xs : list Posting) :
  0 <= page ->
  upstream (List.length (sent w))
    (page_request access_token date_from date_to page)
  = Json {| d_items := Some (x :: xs); d_pages := None |} ->
  exists w',
    walk_loop upstream (S fuel) access_token date_from date_to page
      total_saved w = Some (Return ObjNone, w')
    /\ sent w' = sent w ++ [page_request access_token date_from date_to page]
    /\ db w' = save_to_db (db w) (x :: xs).
Proof.
  intros Hp H. cbn [walk_loop].
  fold (page_request access_token date_from date_to page).
  rewrite H. cbn [d_items d_pages or_default].
  replace (page + 1 >=? 1) with true by lia.
  eexists. split; [reflexivity|]. split; reflexivity.
Qed.

(** C10 (no [pages] field): when the answer to page 0 has postings and no
    [pages] field, the page count is taken to be 1: the walk saves that
    page, issues no other request and returns, however many postings the
    page holds. *)
Theorem missing_pages_means_one_page (upstream : nat -> request -> response)
    (fuel : nat) (access_token date_from date_to : string) (w : world)
    (x : Posting) (xs : list Posting) :
  (1 <= fuel)%nat ->
  upstream (List.length (sent w))
    (page_request access_token date_from date_to 0)
  = Json {| d_items := Some (x :: xs); d_pages := None |} ->
  exists w',
    parse_by_date_range upstream fuel access_token date_from date_to w
    = Some (Return ObjNone, w')
    /\ sent w' = sent w ++ [page_request access_token date_from date_to 0]
    /\ db w' = save_to_db (db w) (x :: xs).
Proof.
  intros Hf H. destruct fuel as [|fuel]; [lia|].
  unfold parse_by_date_range.
  apply (walk_loop_no_pages_field upstream fuel access_token date_from date_to
           0 0 (print (LineRangeStart date_from date_to) w) x xs);
    [lia | exact H].
Qed.

Lemma missing_pages_means_one_page_witness :
  exists w',
    parse_by_date_range no_pages_field 200 "token" "2024-01-01T00:00:00"
      "2024-01-04T23:59:59" empty_world = Some (Return ObjNone, w')
    /\ sent w' = sent empty_world
                 ++ [page_request "token" "2024-01-01T00:00:00"
                       "2024-01-04T23:59:59" 0]
    /\ db w' = save_to_db (db empty_world)
                 [posting_email_only; posting_no_contacts; posting_3177].
Proof.
  apply (missing_pages_means_one_page no_pages_field 200).
  - lia.
  - reflexivity.
Defined.

(** ** The window partitioner *)

Section Split.

(** [total = parts * base + r] with [0 <= r < parts], as [//] and [%]
    give them. *)
Variables total parts base r : Z.
Hypothesis Htotal : total = parts * base + r.
Hypothesis Hr : 0 <= r < parts.
Hypothesis Hbase : 0 <= base.

Let off := offset base r.

Lemma offset_step (i : Z) :
  off (i + 1) = off i + base + (if i <? r then 1 else 0).
Proof.
  unfold off, offset. destruct (Z.ltb_spec i r); lia.
Qed.

Lemma offset_parts : off parts = total.
Proof. unfold off, offset. lia. Qed.

Lemma offset_next_le (i : Z) : 0 <= i < parts -> off (i + 1) <= total.
Proof.
  intros Hi. unfold off, offset.
  assert ((i + 1) * base <= parts * base) by nia. lia.
Qed.

(** A window that starts inside the range has at least one day. *)
Lemma window_not_empty (i : Z) :
  0 <= i < parts -> off i < total ->
  1 <= base + (if i <? r then 1 else 0).
Proof.
  intros Hi Ho. unfold off, offset in Ho.
  destruct (Z.ltb_spec i r); [lia|].
  destruct (Z.eq_dec base 0) as [E|E]; [|lia].
  subst base. lia.
Qed.

(** The range is used up after window [i] exactly when [i] is the last of
    the [min parts total] windows. *)
Lemma range_done_iff (i : Z) :
  0 <= i < parts ->
  (total <= off (i + 1) <-> Z.min parts total <= i + 1).
Proof.
  intros Hi. unfold off, offset. split; intros H.
  - destruct (Z.eq_dec base 0) as [E|E].
    + subst base. lia.
    + assert (i + 1 = parts \/ i + 1 < parts) as [->|L] by lia; [lia|].
      assert ((i + 1) * base <= (parts - 1) * base) by nia. lia.
  - assert (i + 1 = parts \/ i + 1 < parts) as [->|L] by lia; [lia|].
    assert (total < parts) by lia.
    assert (base = 0) by nia. subst base. lia.
Qed.

Lemma inside_range (i : Z) :
  0 <= i < parts -> off i < total -> i < Z.min parts total.
Proof.
  intros Hi Ho. unfold off, offset in Ho.
  destruct (Z_lt_le_dec i total) as [L|L]; [lia|].
  assert (base = 0) by nia. subst base. lia.
Qed.

Lemma offset_last : 0 < total -> off (Z.min parts total) = total.
Proof.
  intros Ht. unfold off, offset.
  destruct (Z_le_gt_dec parts total) as [L|L].
  - rewrite Z.min_l by lia. lia.
  - assert (base = 0) by nia. subst base. lia.
Qed.

Lemma days_window_at (dt_start i : Z) :
  days (window_at dt_start base r i) = base + (if i <? r then 1 else 0).
Proof.
  unfold days, window_at. simpl. fold off. rewrite offset_step. lia.
Qed.

(** The closed form tiles the range. *)
Lemma tiles_window_at (dt_start : Z) (m : nat) :
  forall i,
    0 <= i -> i + Z.of_nat m <= Z.min parts total -> 0 < total ->
    tiles (dt_start + off i) (dt_start + off (i + Z.of_nat m) - 1)
      (map (window_at dt_start base r) (count_from i m)).
Proof.
  induction m as [|m IH]; intros i Hi Hm Ht.
  - simpl. rewrite Z.add_0_r. lia.
  - replace (i + Z.of_nat (S m)) with (i + 1 + Z.of_nat m) by lia.
    rewrite count_from_S.
    cbn [map tiles window_at w_start w_end]. fold off.
    split; [reflexivity|]. split.
    + assert (off i < total).
      { destruct (Z_lt_le_dec (off i) total) as [L|L]; [exact L|].
        assert (i = 0 \/ 0 <= i - 1 < parts) as [->|Hp] by lia.
        - unfold off, offset in L. lia.
        - apply (range_done_iff (i - 1)) in Hp.
          replace (i - 1 + 1) with i in Hp by lia. lia. }
      pose proof (window_not_empty i ltac:(lia) H).
      rewrite offset_step. lia.
    + replace (dt_start + off (i + 1) - 1 + 1) with (dt_start + off (i + 1))
        by lia.
      apply IH; lia.
Qed.

End Split.

(** With fuel for 200 iterations a walk ends: it returns [None] or raises
    the upstream's error. *)
Lemma parse_by_date_range_ends (upstream : nat -> request -> response)
    (fuel : nat) (access_token date_from date_to : string) (w : world) :
  (200 <= fuel)%nat ->
  exists o w',
    parse_by_date_range upstream fuel access_token date_from date_to w
    = Some (o, w')
    /\ (o = Return ObjNone \/ o = Raise HTTPError).
Proof.
  intros Hf. unfold parse_by_date_range.
  destruct (walk_loop_terminates upstream access_token date_from date_to fuel
              0 0 (print (LineRangeStart date_from date_to) w))
    as (o & w' & E); [lia | simpl; lia |].
  exists o, w'. split; [exact E|].
  apply walk_loop_sound in E; [|lia].
  destruct E as (n & added & t & _ & _ & _ & _ & _ & Ho).
  destruct o as [v|e]; [left | right].
  - destruct Ho as [Hv _]. now rewrite Hv.
  - now rewrite Ho.
Qed.

Lemma add_days_some (d k : Z) :
  0 < d + k <= MAXORDINAL -> add_days d k = Some (d + k).
Proof.
  intros H. unfold add_days.
  replace (0 <? d + k) with true by lia.
  replace (d + k <=? MAXORDINAL) with true by lia.
  reflexivity.
Qed.

(** [//] and [%] split the day count as [Section Split] takes it. *)
Lemma split_total (dt_start dt_end parts : Z) :
  dt_start <= dt_end -> 0 < parts ->
  let total := dt_end - dt_start + 1 in
  total = parts * (total / parts) + total mod parts
  /\ 0 <= total mod parts < parts
  /\ 0 <= total / parts.
Proof.
  intros Ho Hp total. split; [apply Z.div_mod; lia|].
  split; [apply Z.mod_pos_bound; lia|].
  apply Z.div_pos; unfold total; lia.
Qed.

Section PartsLoop.

Variable upstream : nat -> request -> response.
Variable fuel : nat.
Variable access_token : string.
Hypothesis Hfuel : (200 <= fuel)%nat.

Variables dt_start dt_end parts : Z.
Hypothesis Hstart : 0 < dt_start.
Hypothesis Hend : dt_end <= MAXORDINAL.
Hypothesis Horder : dt_start <= dt_end.
Hypothesis Hparts : 0 < parts.

Let total := dt_end - dt_start + 1.
Let base := total / parts.
Let r := total mod parts.

(** The loop from index [i] on, entered with [current_start] inside the
    range: the windows walked are the first [m] of the closed form from
    [i] on, and all of them, up to the last of [min parts total], unless a
    walk raises the upstream's error. *)
Lemma parts_loop_windows (n : nat) :
  forall (i current_start : Z) (w : world),
    0 <= i ->
    Z.of_nat n = parts - i ->
    current_start = dt_start + offset base r i ->
    offset base r i < total ->
    exists ws o w' (m : nat),
      parts_loop upstream fuel access_token dt_end parts base r n i
        current_start w = Some (ws, o, w')
      /\ (1 <= m <= Z.to_nat (Z.min parts total - i))%nat
      /\ ws = map (window_at dt_start base r) (count_from i m)
      /\ (o <> Raise HTTPError -> m = Z.to_nat (Z.min parts total - i)).
Proof.
  destruct (split_total dt_start dt_end parts Horder Hparts)
    as (Ht & Hr & Hb).
  fold total base r in Ht, Hr, Hb.
  induction n as [|n IH]; intros i cs w Hi Hn Hcs Hin.
  { rewrite <- (offset_parts total parts base r Ht Hr) in Hin.
    replace i with parts in Hin by lia. lia. }
  assert (Hip : 0 <= i < parts) by lia.
  pose proof (offset_step base r i) as Hstep.
  pose proof (offset_next_le total parts base r Ht Hb i Hip) as Hle.
  pose proof (window_not_empty total parts base r Ht Hb i Hip Hin) as Hne.
  pose proof (inside_range total parts base r Ht Hr Hb i Hip Hin) as HK.
  pose proof (range_done_iff total parts base r Ht Hr Hb i Hip) as Hdone.
  assert (HS : Z.to_nat (Z.min parts total - i)
               = S (Z.to_nat (Z.min parts total - (i + 1)))) by lia.
  assert (Htot : total = dt_end - dt_start + 1) by reflexivity.
  assert (Hoff : 0 <= offset base r i) by (unfold offset; nia).
  cbn [parts_loop].
  rewrite add_days_some by lia.
  replace (cs + (base + (if i <? r then 1 else 0) - 1) >? dt_end)
    with false by lia.
  set (this := {| w_start := cs;
                  w_end := cs + (base + (if i <? r then 1 else 0) - 1) |}).
  assert (Hthis : this = window_at dt_start base r i).
  { unfold this, window_at. f_equal; lia. }
  assert (Hone : [this] = map (window_at dt_start base r) (count_from i 1)).
  { rewrite count_from_S. simpl. now rewrite Hthis. }
  match goal with
  | |- context [parse_by_date_range ?u ?f ?a ?x ?y ?v] =>
      destruct (parse_by_date_range_ends u f a x y v Hfuel)
        as (o1 & w1 & -> & [-> | ->])
  end.
  2:{ exists [this], (Raise HTTPError), w1, 1%nat.
      split; [reflexivity|]. split; [lia|]. split; [exact Hone|].
      intros C. now contradiction C. }
  unfold add_days.
  destruct ((0 <? _) && (_ <=? MAXORDINAL)) eqn:Hadd.
  2:{ exists [this], (Raise OverflowError), w1, 1%nat.
      split; [reflexivity|]. split; [lia|]. split; [exact Hone|].
      intros _. lia. }
  destruct (_ >? dt_end) eqn:Hgt.
  { exists [this], (Return ObjNone), w1, 1%nat.
    split; [reflexivity|]. split; [lia|]. split; [exact Hone|].
    intros _. lia. }
  destruct (IH (i + 1)
              (cs + (base + (if i <? r then 1 else 0) - 1) + 1) w1)
    as (ws & o & w' & m & E & Hm & Hws & Hfull); try lia.
  rewrite E. exists (this :: ws), o, w', (S m).
  split; [reflexivity|]. split; [lia|]. split.
  - rewrite count_from_S. simpl map. rewrite <- Hthis, Hws. reflexivity.
  - intros Ho. rewrite (Hfull Ho). lia.
Qed.

End PartsLoop.

(** ** Dates that [strptime] accepts *)

Lemma int_acc_bounds (s : string) :
  forall acc,
    all_digits s = true -> 0 <= acc ->
    0 <= int_acc acc s <= (acc + 1) * 10 ^ Z.of_nat (String.length s) - 1.
Proof.
  induction s as [|c s IH]; intros acc Hd Ha; simpl String.length.
  - simpl. lia.
  - simpl in Hd. apply andb_true_iff in Hd. destruct Hd as [Hc Hd].
    unfold is_ascii_digit in Hc. apply andb_true_iff in Hc.
    cbn [int_acc].
    set (v := Z.of_nat (nat_of_ascii c)) in *.
    specialize (IH (10 * acc + (v - 48)) Hd ltac:(lia)).
    rewrite Nat2Z.inj_succ, Z.pow_succ_r by lia.
    assert (0 < 10 ^ Z.of_nat (String.length s)) by (apply Z.pow_pos_nonneg; lia).
    nia.
Qed.

Lemma int_four_digits (s : string) :
  isdigit s = true -> slen s = 4 -> 0 <= int s <= 9999.
Proof.
  unfold isdigit, slen, int. intros H L.
  apply andb_true_iff in H. destruct H as [_ H].
  pose proof (int_acc_bounds s 0 H ltac:(lia)) as B.
  rewrite L in B. simpl in B. lia.
Qed.

Lemma days_before_year_bounds (year : Z) :
  1 <= year <= 9999 ->
  0 <= days_before_year year
  /\ days_before_year year + 365 + (if is_leap year then 1 else 0)
     <= MAXORDINAL.
Proof.
  intros H. unfold days_before_year, MAXORDINAL. split.
  - Z.div_mod_to_equations. lia.
  - assert (year = 9999 \/ year <= 9998) as [-> | L] by lia.
    + vm_compute. discriminate.
    + destruct (is_leap year); Z.div_mod_to_equations; lia.
Qed.

Lemma month_tables (month : Z) :
  1 <= month <= 12 ->
  0 <= nth (Z.to_nat month) DAYS_BEFORE_MONTH 0
  /\ nth (Z.to_nat month) DAYS_BEFORE_MONTH 0
     + nth (Z.to_nat month) DAYS_IN_MONTH 0 <= 365
  /\ (month = 2 -> nth (Z.to_nat month) DAYS_BEFORE_MONTH 0 = 31).
Proof.
  intros Hm.
  assert (month = 1 \/ month = 2 \/ month = 3 \/ month = 4 \/ month = 5
          \/ month = 6 \/ month = 7 \/ month = 8 \/ month = 9 \/ month = 10
          \/ month = 11 \/ month = 12) as M by lia.
  repeat match goal with H : _ \/ _ |- _ => destruct H end;
    subst month; simpl; lia.
Qed.

Lemma day_of_year_bounds (year month day : Z) :
  1 <= month <= 12 -> 1 <= day <= days_in_month year month ->
  1 <= days_before_month year month + day
  <= 365 + (if is_leap year then 1 else 0).
Proof.
  intros Hm Hd. unfold days_in_month, days_before_month in *.
  destruct (month_tables month Hm) as (T0 & T1 & T2).
  destruct (is_leap year).
  - rewrite andb_true_r in *.
    destruct (Z.eqb_spec month 2) as [E|E];
      destruct (Z.gtb_spec month 2); lia.
  - rewrite andb_false_r in *. lia.
Qed.

Lemma ymd2ord_range (year month day : Z) :
  1 <= year <= 9999 -> 1 <= month <= 12 ->
  1 <= day <= days_in_month year month ->
  0 < ymd2ord year month day <= MAXORDINAL.
Proof.
  intros Hy Hm Hd. unfold ymd2ord.
  pose proof (days_before_year_bounds year Hy).
  pose proof (day_of_year_bounds year month day Hm Hd).
  lia.
Qed.

Lemma strptime_range (s : string) (d : datetime) :
  strptime s = Some d -> 0 < d <= MAXORDINAL.
Proof.
  unfold strptime.
  destruct (split_on "-" s) as [|y [|m [|dd [|]]]]; try discriminate.
  destruct (isdigit y && (slen y =? 4) && isdigit m && (slen m <=? 2)
            && isdigit dd && (slen dd <=? 2)) eqn:F; [|discriminate].
  destruct ((1 <=? int y) && (1 <=? int m) && (int m <=? 12)
            && (1 <=? int dd) && (int dd <=? days_in_month (int y) (int m)))
    eqn:G; [|discriminate].
  intros H. injection H as <-.
  do 5 (apply andb_true_iff in F; destruct F as [F ?]).
  do 4 (apply andb_true_iff in G; destruct G as [G ?]).
  pose proof (int_four_digits y F ltac:(lia)).
  apply ymd2ord_range; lia.
Qed.

Lemma length_count_from {A : Type} (f : Z -> A) (i : Z) (m : nat) :
  List.length (map f (count_from i m)) = m.
Proof. unfold count_from. now rewrite !length_map, length_seq. Qed.

Lemma nth_count_from {A : Type} (f : Z -> A) (d : A) (m : nat) :
  forall (i : Z) (k : nat),
    (k < m)%nat -> nth k (map f (count_from i m)) d = f (i + Z.of_nat k).
Proof.
  induction m as [|m IH]; intros i k Hk; [lia|].
  rewrite count_from_S. destruct k as [|k]; simpl nth.
  - f_equal. simpl. lia.
  - rewrite IH by lia. f_equal. lia.
Qed.

Lemma In_count_from {A : Type} (f : Z -> A) (i : Z) (m : nat) (a : A) :
  In a (map f (count_from i m)) -> exists j, i <= j /\ a = f j.
Proof.
  unfold count_from. rewrite map_map, in_map_iff.
  intros (k & <- & _). exists (i + Z.of_nat k). split; [lia | reflexivity].
Qed.

Lemma tiles_ends (d : window) (ws : list window) :
  forall s e,
    tiles s e ws -> ws <> [] ->
    w_start (hd d ws) = s /\ w_end (last ws d) = e.
Proof.
  induction ws as [|x ws IH]; intros s e T N; [congruence|].
  simpl in T. destruct T as (Hs & _ & T). split; [exact Hs|].
  destruct ws as [|y ws]; [simpl in *; lia|].
  change (last (x :: y :: ws) d) with (last (y :: ws) d).
  apply (IH _ _ T). discriminate.
Qed.

(** The windows of a whole run: a run of the closed form from window 0 on,
    the whole of it unless a walk raises the upstream's error. *)
Lemma parse_with_parts_windows (upstream : nat -> request -> response)
    (fuel : nat) (access_token date_from date_to : string) (parts : Z)
    (w : world) (dt_start dt_end : datetime) :
  (200 <= fuel)%nat ->
  strptime date_from = Some dt_start -> strptime date_to = Some dt_end ->
  dt_start <= dt_end -> 0 < parts ->
  let total_days := dt_end - dt_start + 1 in
  let days_per_part := total_days / parts in
  let remainder := total_days mod parts in
  exists ws o w' (m : nat),
    parse_with_parts upstream fuel access_token date_from date_to parts w
    = Some (ws, o, w')
    /\ (1 <= m <= Z.to_nat (Z.min parts total_days))%nat
    /\ ws = map (window_at dt_start days_per_part remainder) (count_from 0 m)
    /\ (o <> Raise HTTPError -> m = Z.to_nat (Z.min parts total_days)).
Proof.
  intros Hf Ps Pe Ho Hp total_days days_per_part remainder.
  pose proof (strptime_range _ _ Ps) as Rs.
  pose proof (strptime_range _ _ Pe) as Re.
  unfold parse_with_parts. rewrite Ps, Pe.
  replace (dt_end <? dt_start) with false by lia.
  replace (parts <=? 0) with false by lia.
  destruct (split_total dt_start dt_end parts Ho Hp) as (_ & Hr & _).
  destruct (parts_loop_windows upstream fuel access_token Hf dt_start dt_end
              parts ltac:(lia) ltac:(lia) Ho Hp (Z.to_nat parts) 0 dt_start w)
    as (ws & o & w' & m & E & Hm & Hws & Hfull).
  - lia.
  - lia.
  - unfold offset. lia.
  - unfold offset. lia.
  - rewrite Z.sub_0_r in Hm, Hfull. exists ws, o, w', m. auto.
Qed.

(** A run of the closed form from window 0 on tiles the days from the start
    date to the end of its last window, which is the end date when the run
    is whole. *)
Lemma closed_form_tiles (dt_start dt_end parts : Z) (m : nat) :
  dt_start <= dt_end -> 0 < parts ->
  let total_days := dt_end - dt_start + 1 in
  let days_per_part := total_days / parts in
  let remainder := total_days mod parts in
  (1 <= m <= Z.to_nat (Z.min parts total_days))%nat ->
  exists e,
    e <= dt_end
    /\ (m = Z.to_nat (Z.min parts total_days) -> e = dt_end)
    /\ tiles dt_start e
         (map (window_at dt_start days_per_part remainder) (count_from 0 m)).
Proof.
  intros Ho Hp total_days days_per_part remainder Hm.
  destruct (split_total dt_start dt_end parts Ho Hp) as (Ht & Hr & Hb).
  fold total_days days_per_part remainder in Ht, Hr, Hb.
  assert (Htd : total_days = dt_end - dt_start + 1) by reflexivity.
  assert (Htot : 0 < total_days) by lia.
  exists (dt_start + offset days_per_part remainder (Z.of_nat m) - 1).
  split; [|split].
  - pose proof (offset_next_le total_days parts days_per_part remainder Ht Hb
                  (Z.of_nat m - 1) ltac:(lia)) as L.
    replace (Z.of_nat m - 1 + 1) with (Z.of_nat m) in L by lia.
    lia.
  - intros ->. rewrite Z2Nat.id by lia.
    rewrite (offset_last total_days parts days_per_part remainder Ht Hr Hb
               Htot).
    lia.
  - pose proof (tiles_window_at total_days parts days_per_part remainder
                  Ht Hr Hb dt_start m 0 ltac:(lia) ltac:(lia) Htot) as T.
    replace (dt_start + offset days_per_part remainder 0) with dt_start in T
      by (unfold offset; lia).
    exact T.
Qed.






(** C8 (configuration error): with dates that parse, an end date before
    the start date or a number of parts that is not positive makes the run
    print the error and return at once: no window is walked, no request is
    issued and the table is left as it was. *)
Theorem invalid_configuration (upstream : nat -> request -> response)
    (fuel : nat) (access_token date_from date_to : string) (parts : Z)
    (w : world) (dt_start dt_end : datetime) :
  strptime date_from = Some dt_start -> strptime date_to = Some dt_end ->
  dt_end < dt_start \/ parts <= 0 ->
  exists msg w',
    parse_with_parts upstream fuel access_token date_from date_to parts w
    = Some ([], Return ObjNone, w')
    /\ (msg = LineDateError date_to date_from \/ msg = LinePartsError parts)
    /\ out w' = out w ++ [msg]
    /\ sent w' = sent w
    /\ db w' = db w.
Proof.
  intros Ps Pe H. unfold parse_with_parts. rewrite Ps, Pe.
  destruct (Z.ltb_spec dt_end dt_start) as [L|L].
  - exists (LineDateError date_to date_from). eexists.
    split; [reflexivity|]. simpl. auto.
  - destruct (Z.leb_spec parts 0) as [P|P]; [|lia].
    exists (LinePartsError parts). eexists.
    split; [reflexivity|]. simpl. auto.
Qed.

Lemma invalid_configuration_witness :
  (exists msg w',
     parse_with_parts endless 0 "token" "2024-01-10" "2024-01-01" 3
       empty_world = Some ([], Return ObjNone, w')
     /\ (msg = LineDateError "2024-01-01" "2024-01-10"
         \/ msg = LinePartsError 3)
     /\ out w' = out empty_world ++ [msg]
     /\ sent w' = sent empty_world
     /\ db w' = db empty_world)
  /\ (exists msg w',
        parse_with_parts endless 0 "token" "2024-01-01" "2024-01-10" 0
          empty_world = Some ([], Return ObjNone, w')
        /\ (msg = LineDateError "2024-01-10" "2024-01-01"
            \/ msg = LinePartsError 0)
        /\ out w' = out empty_world ++ [msg]
        /\ sent w' = sent empty_world
        /\ db w' = db empty_world).
Proof.
  split.
  - apply (invalid_configuration endless 0 "token" "2024-01-10" "2024-01-01"
             3 empty_world 738895 738886); [reflexivity | reflexivity | lia].
  - apply (invalid_configuration endless 0 "token" "2024-01-01" "2024-01-10"
             0 empty_world 738886 738895); [reflexivity | reflexivity | lia].
Defined.

(** A range that ends on 9999-12-31 is walked in full; stepping to the day
    after the last window then raises OverflowError. *)
Example last_day_overflows :
  exists w',
    parse_with_parts no_postings 200 "token" "9999-12-30" "9999-12-31" 2
      empty_world
    = Some ([{| w_start := 3652058; w_end := 3652058 |};
             {| w_start := 3652059; w_end := 3652059 |}],
            Raise OverflowError, w')
    /\ List.length (sent w') = 2%nat.
Proof. eexists. split; [vm_compute; reflexivity | reflexivity]. Qed.

(** * Further properties of the store and of the record filter *)

Lemma phone_full_not_empty (phone_obj : Phone) :
  exists c s, phone_full phone_obj = String c s.
Proof.
  unfold phone_full. destruct (truthy (get (ph_comment phone_obj) ""));
    simpl; eauto.
Qed.

Lemma join_not_empty (sep x : string) (xs : list string) :
  x <> EmptyString -> join sep (x :: xs) <> EmptyString.
Proof.
  intros Hx. unfold join. destruct xs as [|y ys]; simpl; [exact Hx|].
  destruct x; [congruence | discriminate].
Qed.

Lemma record_filter_admissible (vac : Posting) (r : row) :
  record_filter vac = Some r -> row_admissible r.
Proof.
  intros H. destruct (record_filter_Some vac r H) as (X & G & _).
  destruct (record_filter_accepts vac X G) as (r' & R & _ & E & M & P).
  rewrite R in H. injection H as <-. split; [now rewrite E|].
  unfold row_has_contact. rewrite M, P.
  apply orb_true_iff in G. destruct G as [G|G]; [now left | right].
  destruct (posting_phones vac) as [|p ps]; [discriminate G|].
  change (map phone_full (p :: ps)) with (phone_full p :: map phone_full ps).
  intros C.
  apply (join_not_empty nl (phone_full p) (map phone_full ps));
    [|congruence].
  destruct (phone_full_not_empty p) as (c & s & ->). discriminate.
Qed.

Lemma save_to_db_admissible (vacancies : list Posting) :
  forall db : table,
    Forall row_admissible db ->
    Forall row_admissible (save_to_db db vacancies).
Proof.
  induction vacancies as [|vac xs IH]; intros db F; [exact F|].
  rewrite save_to_db_cons. apply IH. unfold save_one.
  destruct (record_filter vac) as [r|] eqn:R; [|exact F].
  destruct (insert_cases db r) as [-> | [-> _]]; [|exact F].
  apply Forall_app. split; [exact F|].
  constructor; [|constructor]. now apply (record_filter_admissible vac).
Qed.

(** X1 (rows that are kept): every row of the table has an employer that is
    not excluded and carries an email or a non-empty phones column, once
    the table starts that way; [save_to_db] never adds a row without. *)
Theorem table_rows_admissible (db : table) (vacancies : list Posting) :
  Forall row_admissible db ->
  Forall row_admissible (save_to_db db vacancies).
Proof. intros F. now apply save_to_db_admissible. Qed.

Lemma table_rows_admissible_witness :
  Forall row_admissible
    (save_to_db [] [posting_3177; posting_email_only; posting_no_contacts]).
Proof.
  apply (table_rows_admissible []
           [posting_3177; posting_email_only; posting_no_contacts]).
  constructor.
Defined.

Lemma save_to_db_holds_ids (vacancies : list Posting) :
  forall (db : table) (vac : Posting) (r : row) (s : string),
    In vac vacancies -> record_filter vac = Some r -> id r = PStr s ->
    In s (text_ids (save_to_db db vacancies)).
Proof.
  induction vacancies as [|v xs IH]; intros db vac r s H R E; [easy|].
  rewrite save_to_db_cons. destruct H as [-> | H].
  - apply save_to_db_keeps_id. unfold save_one. rewrite R.
    now apply insert_holds_id.
  - now apply (IH _ vac r s).
Qed.

Lemma save_to_db_nothing_new (vacancies : list Posting) :
  forall db : table,
    (forall vac r, In vac vacancies -> record_filter vac = Some r ->
                   exists s, id r = PStr s /\ In s (text_ids db)) ->
    save_to_db db vacancies = db.
Proof.
  induction vacancies as [|v xs IH]; intros db H; [reflexivity|].
  rewrite save_to_db_cons.
  assert (S1 : save_one db v = db).
  { unfold save_one. destruct (record_filter v) as [r|] eqn:R; [|reflexivity].
    destruct (H v r (or_introl eq_refl) R) as (s & E & I).
    now apply (insert_present db r s). }
  rewrite S1. apply IH. intros vac r I R. apply (H vac r); [now right | exact R].
Qed.

(** X2 (re-ingestion): saving a batch a second time changes nothing, when
    each posting of the batch that the filter accepts has a text id. *)
Theorem save_to_db_idempotent (db : table) (vacancies : list Posting) :
  (forall vac r, In vac vacancies -> record_filter vac = Some r ->
                 id r <> PNone) ->
  save_to_db (save_to_db db vacancies) vacancies = save_to_db db vacancies.
Proof.
  intros H. apply save_to_db_nothing_new. intros vac r I R.
  destruct (id r) as [|s] eqn:E; [now elim (H vac r I R)|].
  exists s. split; [reflexivity|].
  now apply (save_to_db_holds_ids vacancies db vac r s).
Qed.

Lemma save_to_db_idempotent_witness :
  save_to_db
    (save_to_db [] [posting_email_only; posting_3177; posting_email_only_again])
    [posting_email_only; posting_3177; posting_email_only_again]
  = save_to_db [] [posting_email_only; posting_3177; posting_email_only_again].
Proof.
  apply (save_to_db_idempotent []
           [posting_email_only; posting_3177; posting_email_only_again]).
  intros vac r [<- | [<- | [<- | []]]] R; vm_compute in R;
    try discriminate R; injection R as <-; discriminate.
Defined.

(** X3 (an id that is null): a posting the filter accepts whose [id] is
    JSON null is stored with a NULL key, which collides with nothing: every
    [save_to_db] that carries it appends its row once more. *)
Theorem null_id_is_stored_again (vac : Posting) (r : row) (db : table) :
  v_id vac = Some PNone -> record_filter vac = Some r ->
  save_to_db db [vac] = db ++ [r]
  /\ save_to_db (save_to_db db [vac]) [vac] = db ++ [r; r].
Proof.
  intros N R.
  assert (E : id r = PNone).
  { apply record_filter_Some in R. destruct R as (_ & _ & ->).
    now rewrite N. }
  assert (S1 : forall t, save_to_db t [vac] = t ++ [r]).
  { intros t. simpl. unfold save_one. rewrite R. now apply insert_null. }
  split; [apply S1|]. rewrite !S1, <- app_assoc. reflexivity.
Qed.

Lemma null_id_is_stored_again_witness :
  exists r,
    record_filter posting_null_id = Some r
    /\ save_to_db [row_202] [posting_null_id] = [row_202; r]
    /\ save_to_db (save_to_db [row_202] [posting_null_id]) [posting_null_id]
       = [row_202; r; r].
Proof.
  destruct (record_filter posting_null_id) as [r|] eqn:R; [|discriminate R].
  exists r. split; [reflexivity|].
  apply (null_id_is_stored_again posting_null_id r [row_202]);
    [reflexivity | exact R].
Defined.

(** * Further properties of the range walker *)

Lemma len_app {A : Type} (xs ys : list A) : len (xs ++ ys) = len xs + len ys.
Proof. unfold len. rewrite length_app. lia. Qed.

Lemma answers_S (upstream : nat -> request -> response)
    (access_token date_from date_to : string) (k : nat) (page : Z) (n : nat) :
  answers upstream access_token date_from date_to k page (S n)
  = upstream k (page_request access_token date_from date_to page)
    :: answers upstream access_token date_from date_to (S k) (page + 1) n.
Proof.
  unfold answers. simpl. rewrite Nat.add_0_r, Z.add_0_r. f_equal.
  rewrite <- seq_shift, map_map. apply map_ext. intros j.
  f_equal; [lia | f_equal; lia].
Qed.

Section WalkerTrace.

Variable upstream : nat -> request -> response.
Variables access_token date_from date_to : string.

(** A finished walk, read off the answers it got: the table is the old one
    after saving the postings of the answers in order, a return prints the
    old total plus their number, and a raise comes from a failed last
    request. *)
Lemma walk_loop_trace (fuel : nat) :
  forall (page total_saved : Z) (w w' : world) (o : outcome),
    walk_loop upstream fuel access_token date_from date_to page total_saved w
    = Some (o, w') ->
    exists n : nat,
      (1 <= n)%nat
      /\ sent w' = sent w
                   ++ map (page_request access_token date_from date_to)
                        (count_from page n)
      /\ let got :=
           flat_map items_of
             (answers upstream access_token date_from date_to
                (List.length (sent w)) page n) in
         db w' = save_to_db (db w) got
         /\ match o with
            | Return _ =>
                exists lines,
                  out w' = out w ++ lines
                           ++ [LineTotal (total_saved + len got)
                                 date_from date_to]
            | Raise _ =>
                upstream (List.length (sent w) + (n - 1))%nat
                  (page_request access_token date_from date_to
                     (page + Z.of_nat (n - 1)))
                = HttpFailure
            end.
Proof.
  induction fuel as [|fuel IH]; intros page total w w' o H;
    [discriminate H|].
  simpl in H. fold (page_request access_token date_from date_to page) in H.
  destruct (upstream (List.length (sent w))
              (page_request access_token date_from date_to page))
    as [|data] eqn:A.
  { injection H as <- <-. exists 1%nat.
    rewrite count_from_S, answers_S, A. unfold len. simpl.
    rewrite Nat.add_0_r, Z.add_0_r. repeat split; trivial; lia. }
  destruct (or_default (d_items data) []) as [|x xs] eqn:Items.
  { injection H as <- <-. exists 1%nat.
    rewrite count_from_S, answers_S, A. unfold len. simpl.
    rewrite Items. simpl. rewrite Z.add_0_r.
    repeat split; trivial; try lia.
    exists [LineNoMore date_from date_to]. now rewrite <- app_assoc. }
  remember (x :: xs) as vacancies eqn:Hv. clear Hv x xs.
  destruct (page + 1 >=? or_default (d_pages data) 1) eqn:Last.
  { injection H as <- <-. exists 1%nat.
    rewrite count_from_S, answers_S, A. simpl. rewrite Items, app_nil_r.
    repeat split; trivial; try lia.
    eexists [_; _]. rewrite <- !app_assoc. reflexivity. }
  destruct (page + 1 >=? 200) eqn:Ceil.
  { injection H as <- <-. exists 1%nat.
    rewrite count_from_S, answers_S, A. simpl. rewrite Items, app_nil_r.
    repeat split; trivial; try lia.
    eexists [_; _]. rewrite <- !app_assoc. reflexivity. }
  apply IH in H. destruct H as (n & Hn & Hs & Hd & Ho).
  simpl in Hs, Hd, Ho. rewrite length_app in Hd, Ho. simpl in Hd, Ho.
  rewrite Nat.add_1_r in Hd, Ho.
  exists (S n). rewrite count_from_S, answers_S, A. simpl flat_map.
  rewrite Items. split; [lia|]. split; [|split].
  - rewrite Hs, <- app_assoc. reflexivity.
  - rewrite Hd, save_to_db_app. reflexivity.
  - destruct o as [v|e].
    + destruct Ho as (lines & Ho). eexists (_ :: lines).
      rewrite Ho, <- !app_assoc, len_app, Z.add_assoc. reflexivity.
    + replace (List.length (sent w) + (S n - 1))%nat
        with (S (List.length (sent w)) + (n - 1))%nat by lia.
      replace (page + Z.of_nat (S n - 1)) with (page + 1 + Z.of_nat (n - 1))
        by lia.
      exact Ho.
Qed.

End WalkerTrace.

(** X4 (what a walk stores): whatever the upstream does, the table after
    [parse_by_date_range] is the table before with the postings of all the
    answers saved in order, also when the last request failed and the call
    raises; when it returns, the total of its last line is the number of
    postings received, accepted by the filter or not. *)
Theorem walker_saves_what_it_fetches
    (upstream : nat -> request -> response) (fuel : nat)
    (access_token date_from date_to : string) (w w' : world) (o : outcome) :
  parse_by_date_range upstream fuel access_token date_from date_to w
  = Some (o, w') ->
  exists n : nat,
    (1 <= n)%nat
    /\ sent w' = sent w
                 ++ map (page_request access_token date_from date_to)
                      (count_from 0 n)
    /\ let got :=
         flat_map items_of
           (answers upstream access_token date_from date_to
              (List.length (sent w)) 0 n) in
       db w' = save_to_db (db w) got
       /\ match o with
          | Return _ =>
              exists lines,
                out w' = out w ++ lines
                         ++ [LineTotal (len got) date_from date_to]
          | Raise _ =>
              upstream (List.length (sent w) + (n - 1))%nat
                (page_request access_token date_from date_to
                   (Z.of_nat (n - 1)))
              = HttpFailure
          end.
Proof.
  unfold parse_by_date_range. intros H.
  apply walk_loop_trace in H. destruct H as (n & Hn & Hs & Hd & Ho).
  exists n. split; [exact Hn|]. split; [exact Hs|]. split; [exact Hd|].
  destruct o as [v|e]; [|exact Ho].
  destruct Ho as (lines & Ho).
  exists (LineRangeStart date_from date_to :: lines).
  rewrite Ho. simpl. rewrite <- app_assoc. reflexivity.
Qed.

Lemma walker_saves_what_it_fetches_witness :
  exists w',
    parse_by_date_range fails_third 200 "token" "a" "b" empty_world
    = Some (Raise HTTPError, w')
    /\ exists n : nat,
         (1 <= n)%nat
         /\ sent w' = sent empty_world
                      ++ map (page_request "token" "a" "b") (count_from 0 n)
         /\ db w' = save_to_db (db empty_world)
                      (flat_map items_of
                         (answers fails_third "token" "a" "b"
                            (List.length (sent empty_world)) 0 n))
            /\ fails_third (List.length (sent empty_world) + (n - 1))%nat
                 (page_request "token" "a" "b" (Z.of_nat (n - 1)))
               = HttpFailure.
Proof.
  eexists. split; [vm_compute; reflexivity|].
  apply (walker_saves_what_it_fetches fails_third 200 "token" "a" "b"
           empty_world _ (Raise HTTPError)).
  vm_compute. reflexivity.
Defined.

(** X5 (nothing to fetch): when the answer to page 0 has no postings, or
    no [items] at all, the walk ends after that one request: the table is
    untouched and the lines printed are the start of the range, the notice
    that nothing is left and a total of 0. *)
Theorem empty_first_page (upstream : nat -> request -> response) (fuel : nat)
    (access_token date_from date_to : string) (w : world) (data : payload) :
  (1 <= fuel)%nat ->
  upstream (List.length (sent w))
    (page_request access_token date_from date_to 0) = Json data ->
  or_default (d_items data) [] = [] ->
  parse_by_date_range upstream fuel access_token date_from date_to w
  = Some (Return ObjNone,
          {| db := db w;
             sent := sent w ++ [page_request access_token date_from date_to 0];
             out := out w ++ [LineRangeStart date_from date_to;
                              LineNoMore date_from date_to;
                              LineTotal 0 date_from date_to] |}).
Proof.
  intros Hf A E. destruct fuel as [|fuel]; [lia|].
  unfold parse_by_date_range. cbn [walk_loop].
  fold (page_request access_token date_from date_to 0).
  cbn [print sent]. rewrite A, E.
  unfold print, issue. simpl. rewrite <- !app_assoc. reflexivity.
Qed.

Lemma empty_first_page_witness :
  parse_by_date_range no_postings 1 "token" "a" "b" empty_world
  = Some (Return ObjNone,
          {| db := db empty_world;
             sent := sent empty_world ++ [page_request "token" "a" "b" 0];
             out := out empty_world ++ [LineRangeStart "a" "b";
                                        LineNoMore "a" "b";
                                        LineTotal 0 "a" "b"] |}).
Proof.
  apply (empty_first_page no_postings 1 "token" "a" "b" empty_world
           {| d_items := Some []; d_pages := Some 0 |});
    [apply le_n | reflexivity | reflexivity].
Defined.

Section FullPages.

Variable upstream : nat -> request -> response.
Variables access_token date_from date_to : string.

(** The upstream reports [pages] pages and every page it serves has
    postings. *)
Variable pages : Z.
Hypothesis Hfull :
  forall k q, exists x xs,
    upstream k q = Json {| d_items := Some (x :: xs); d_pages := Some pages |}.

Lemma walk_loop_full_pages (fuel : nat) :
  forall (page total_saved : Z) (w : world),
    0 <= page < Z.max 1 (Z.min pages 200) ->
    (Z.to_nat (Z.max 1 (Z.min pages 200) - page) <= fuel)%nat ->
    exists w',
      walk_loop upstream fuel access_token date_from date_to page
        total_saved w = Some (Return ObjNone, w')
      /\ List.length (sent w')
         = (List.length (sent w)
            + Z.to_nat (Z.max 1 (Z.min pages 200) - page))%nat.
Proof.
  induction fuel as [|fuel IH]; intros page total w Hp Hf; [lia|].
  cbn [walk_loop].
  destruct (Hfull (List.length (sent w))
              (page_request access_token date_from date_to page))
    as (x & xs & A).
  unfold page_request in A. rewrite A. cbn [d_items d_pages or_default].
  destruct (Z.geb_spec (page + 1) pages) as [L|L].
  { eexists. split; [reflexivity|]. cbn [print sent issue with_db].
    rewrite length_app. simpl. lia. }
  destruct (Z.geb_spec (page + 1) 200) as [C|C].
  { eexists. split; [reflexivity|]. cbn [print sent issue with_db].
    rewrite length_app. simpl. lia. }
  match goal with
  | |- context [walk_loop _ _ _ _ _ _ ?t ?v] =>
      destruct (IH (page + 1) t v) as (w' & E & Hs); [lia | lia |]
  end.
  exists w'. split; [exact E|]. rewrite Hs.
  cbn [print sent issue with_db]. rewrite length_app. simpl. lia.
Qed.

End FullPages.

(** X6 (last page): against an upstream that reports [pages] pages and
    serves postings on every page, a walk asks for the pages 0 .. pages - 1
    and returns; it asks for page 0 alone when [pages] is below 1 and stops
    at page 199 when [pages] is above 200. *)
Theorem walker_asks_reported_pages (upstream : nat -> request -> response)
    (fuel : nat) (access_token date_from date_to : string) (w : world)
    (pages : Z) :
  (forall k q, exists x xs,
     upstream k q = Json {| d_items := Some (x :: xs); d_pages := Some pages |}) ->
  (200 <= fuel)%nat ->
  exists w',
    parse_by_date_range upstream fuel access_token date_from date_to w
    = Some (Return ObjNone, w')
    /\ sent w' = sent w
                 ++ map (page_request access_token date_from date_to)
                      (count_from 0 (Z.to_nat (Z.max 1 (Z.min pages 200)))).
Proof.
  intros Hfull Hf. unfold parse_by_date_range.
  destruct (walk_loop_full_pages upstream access_token date_from date_to
              pages Hfull fuel 0 0
              (print (LineRangeStart date_from date_to) w))
    as (w' & E & Hl); [lia | lia |].
  exists w'. split; [exact E|].
  apply walk_loop_sound in E; [|lia].
  destruct E as (n & added & t & _ & _ & Hs & _).
  cbn [print sent] in Hs, Hl. rewrite Hs in Hl |- *.
  rewrite length_app, length_map in Hl. unfold count_from in Hl.
  rewrite length_map, length_seq, Z.sub_0_r in Hl.
  replace n with (Z.to_nat (Z.max 1 (Z.min pages 200))) by lia.
  reflexivity.
Qed.

Lemma walker_asks_reported_pages_witness :
  exists w',
    parse_by_date_range (steady 3) 200 "token" "a" "b" empty_world
    = Some (Return ObjNone, w')
    /\ sent w' = sent empty_world
                 ++ map (page_request "token" "a" "b")
                      (count_from 0 (Z.to_nat (Z.max 1 (Z.min 3 200)))).
Proof.
  apply (walker_asks_reported_pages (steady 3) 200 "token" "a" "b"
           empty_world 3).
  - intros k q. unfold steady. eauto.
  - apply le_n.
Defined.

(** * Further properties of a whole run *)

(** What one walk does to the world. *)
Lemma parse_by_date_range_effects (upstream : nat -> request -> response)
    (fuel : nat) (access_token date_from date_to : string) (w w' : world)
    (o : outcome) :
  parse_by_date_range upstream fuel access_token date_from date_to w
  = Some (o, w') ->
  (exists got, db w' = save_to_db (db w) got)
  /\ exists n : nat,
       (n <= 200)%nat
       /\ sent w' = sent w
                    ++ map (page_request access_token date_from date_to)
                         (count_from 0 n).
Proof.
  unfold parse_by_date_range. intros H. split.
  - apply walk_loop_trace in H. destruct H as (n & _ & _ & Hd & _).
    eexists. exact Hd.
  - apply walk_loop_sound in H; [|lia].
    destruct H as (n & added & t & _ & Hb & Hs & _).
    exists n. split; [lia | exact Hs].
Qed.

Section RunEffects.

Variable upstream : nat -> request -> response.
Variable fuel : nat.
Variable access_token : string.
Variables dt_end parts days_per_part remainder : Z.

(** What the loop over the windows does to the world, from any state of
    the loop: the table is saved into, and the requests issued are page
    requests for the windows walked, at most 200 for each. *)
Lemma parts_loop_effects (n : nat) :
  forall (i current_start : Z) (w w' : world) (ws : list window)
         (o : outcome),
    parts_loop upstream fuel access_token dt_end parts days_per_part
      remainder n i current_start w = Some (ws, o, w') ->
    (exists got, db w' = save_to_db (db w) got)
    /\ exists reqs,
         sent w' = sent w ++ reqs
         /\ (List.length reqs <= 200 * List.length ws)%nat
         /\ Forall (fun q => exists x,
                      In x ws
                      /\ q = window_request access_token x (q_page q))
              reqs.
Proof.
  induction n as [|n IH]; intros i cs w w' ws o H.
  { injection H as <- <- <-. split; [now exists []|].
    exists []. rewrite app_nil_r. repeat split; auto. }
  cbn [parts_loop] in H.
  destruct (add_days cs _) as [e0|].
  2:{ injection H as <- <- <-. split; [now exists []|].
      exists []. rewrite app_nil_r. repeat split; auto. }
  match type of H with
  | context [strftime ?t "T23:59:59"] => remember t as e eqn:He in *
  end.
  clear He e0.
  remember {| w_start := cs; w_end := e |} as this eqn:Hthis in *.
  assert (Hst : strftime cs "T00:00:00" = strftime (w_start this) "T00:00:00")
    by now subst this.
  assert (Hen : strftime e "T23:59:59" = strftime (w_end this) "T23:59:59")
    by now subst this.
  rewrite Hst, Hen in H. clear Hst Hen Hthis.
  destruct (parse_by_date_range _ _ _ _ _ _) as [[o1 w1]|] eqn:W;
    [|discriminate H].
  apply parse_by_date_range_effects in W.
  destruct W as ((got & Hd) & k & Hk & Hs).
  cbn [print db sent] in Hd, Hs.
  fold (window_request access_token this) in Hs.
  assert (One : (exists got0, db w1 = save_to_db (db w) got0)
                /\ exists reqs,
                     sent w1 = sent w ++ reqs
                     /\ (List.length reqs <= 200 * List.length [this])%nat
                     /\ Forall (fun q => exists x,
                                  In x [this]
                                  /\ q = window_request access_token x
                                           (q_page q))
                          reqs).
  { split; [now exists got|]. eexists. split; [exact Hs|]. split.
    - rewrite length_count_from. simpl. lia.
    - apply Forall_forall. intros q Hq. apply in_map_iff in Hq.
      destruct Hq as (p & <- & _). exists this. split; [now left|].
      reflexivity. }
  destruct o1 as [v|ex]; [|injection H as <- <- <-; exact One].
  destruct (add_days e 1) as [nxt|];
    [|injection H as <- <- <-; exact One].
  destruct (nxt >? dt_end); [injection H as <- <- <-; exact One|].
  destruct (parts_loop _ _ _ _ _ _ _ n (i + 1) nxt w1)
    as [[[ws2 o2] w2]|] eqn:R; [|discriminate H].
  injection H as <- <- <-. apply IH in R.
  destruct R as ((got2 & Hd2) & reqs2 & Hs2 & Hl2 & Hf2).
  destruct One as (_ & reqs1 & Hs1 & Hl1 & Hf1).
  split.
  - exists (got ++ got2). now rewrite Hd2, Hd, save_to_db_app.
  - exists (reqs1 ++ reqs2). split; [now rewrite Hs2, Hs1, app_assoc|].
    split.
    + rewrite length_app. simpl List.length in *. lia.
    + apply Forall_app. split.
      * eapply Forall_impl; [|exact Hf1].
        intros q (x & [<- | []] & Hq). exists this. split; [now left|exact Hq].
      * eapply Forall_impl; [|exact Hf2].
        intros q (x & Hx & Hq). exists x. split; [now right | exact Hq].
Qed.

End RunEffects.

Lemma parse_with_parts_effects (upstream : nat -> request -> response)
    (fuel : nat) (access_token date_from date_to : string) (parts : Z)
    (w w' : world) (ws : list window) (o : outcome) :
  parse_with_parts upstream fuel access_token date_from date_to parts w
  = Some (ws, o, w') ->
  (exists got, db w' = save_to_db (db w) got)
  /\ exists reqs,
       sent w' = sent w ++ reqs
       /\ (List.length reqs <= 200 * List.length ws)%nat
       /\ Forall (fun q => exists x,
                    In x ws /\ q = window_request access_token x (q_page q))
            reqs.
Proof.
  unfold parse_with_parts. intros H.
  assert (Nothing : forall t,
            (exists got, db (print t w) = save_to_db (db w) got)
            /\ exists reqs,
                 sent (print t w) = sent w ++ reqs
                 /\ (List.length reqs <= 200 * List.length (@nil window))%nat
                 /\ Forall (fun q => exists x,
                              In x (@nil window)
                              /\ q = window_request access_token x (q_page q))
                      reqs).
  { intros t. split; [now exists []|]. exists []. simpl.
    rewrite app_nil_r. auto. }
  assert (Same : (exists got, db w = save_to_db (db w) got)
                 /\ exists reqs,
                      sent w = sent w ++ reqs
                      /\ (List.length reqs <= 200 * List.length (@nil window))%nat
                      /\ Forall (fun q => exists x,
                                   In x (@nil window)
                                   /\ q = window_request access_token x
                                            (q_page q))
                           reqs).
  { split; [now exists []|]. exists []. simpl. rewrite app_nil_r. auto. }
  destruct (strptime date_from) as [dt_start|];
    [|injection H as <- <- <-; exact Same].
  destruct (strptime date_to) as [dt_end|];
    [|injection H as <- <- <-; exact Same].
  destruct (dt_end <? dt_start); [injection H as <- <- <-; apply Nothing|].
  destruct (parts <=? 0); [injection H as <- <- <-; apply Nothing|].
  now apply parts_loop_effects in H.
Qed.

(** X7 (the table over a run): whatever the upstream answers and however a
    run of [parse_with_parts] ends, the table after it is the table before
    followed by the rows added; no text id occurs twice in it and every row
    has an employer that is not excluded and a contact, if that was so
    before. *)
Theorem run_keeps_table_sound (upstream : nat -> request -> response)
    (fuel : nat) (access_token date_from date_to : string) (parts : Z)
    (w w' : world) (ws : list window) (o : outcome) :
  parse_with_parts upstream fuel access_token date_from date_to parts w
  = Some (ws, o, w') ->
  (exists added, db w' = db w ++ added)
  /\ (ids_unique (db w) -> ids_unique (db w'))
  /\ (Forall row_admissible (db w) -> Forall row_admissible (db w')).
Proof.
  intros H. apply parse_with_parts_effects in H.
  destruct H as ((got & ->) & _). split; [|split].
  - apply save_to_db_extends.
  - apply save_to_db_unique.
  - apply save_to_db_admissible.
Qed.

Lemma run_keeps_table_sound_witness :
  exists ws w',
    parse_with_parts fails_third 200 "token" "2024-01-01" "2024-01-10" 3
      empty_world = Some (ws, Raise HTTPError, w')
    /\ (exists added, db w' = db empty_world ++ added)
    /\ (ids_unique (db empty_world) -> ids_unique (db w'))
    /\ (Forall row_admissible (db empty_world) -> Forall row_admissible (db w')).
Proof.
  eexists. eexists. split; [vm_compute; reflexivity|].
  eapply (run_keeps_table_sound fails_third 200 "token" "2024-01-01"
            "2024-01-10" 3 empty_world _ _ (Raise HTTPError)).
  vm_compute. reflexivity.
Defined.

(** X8 (the requests of a run): every request of a run of
    [parse_with_parts] is a page request for one of the windows it walked,
    from 00:00:00 of the window's first day to 23:59:59 of its last, with
    the keyword, 100 postings a page, the exclusion list and the token; a
    window gets at most 200 of them. *)
Theorem run_requests_accounted (upstream : nat -> request -> response)
    (fuel : nat) (access_token date_from date_to : string) (parts : Z)
    (w w' : world) (ws : list window) (o : outcome) :
  parse_with_parts upstream fuel access_token date_from date_to parts w
  = Some (ws, o, w') ->
  exists reqs,
    sent w' = sent w ++ reqs
    /\ (List.length reqs <= 200 * List.length ws)%nat
    /\ forall q, In q reqs ->
         exists x, In x ws /\ q = window_request access_token x (q_page q).
Proof.
  intros H. apply parse_with_parts_effects in H.
  destruct H as (_ & reqs & Hs & Hl & Hf).
  exists reqs. split; [exact Hs|]. split; [exact Hl|].
  now apply Forall_forall.
Qed.

Lemma run_requests_accounted_witness :
  exists ws o w',
    parse_with_parts (steady 2) 200 "token" "2024-01-01" "2024-01-10" 3
      empty_world = Some (ws, o, w')
    /\ exists reqs,
         sent w' = sent empty_world ++ reqs
         /\ (List.length reqs <= 200 * List.length ws)%nat
         /\ forall q, In q reqs ->
              exists x, In x ws /\ q = window_request "token" x (q_page q).
Proof.
  eexists. eexists. eexists. split; [vm_compute; reflexivity|].
  eapply (run_requests_accounted (steady 2) 200 "token" "2024-01-01"
            "2024-01-10" 3 empty_world).
  vm_compute. reflexivity.
Defined.

Lemma parse_by_date_range_returns (upstream : nat -> request -> response)
    (fuel : nat) (access_token date_from date_to : string) (w : world) :
  (forall k q, upstream k q <> HttpFailure) ->
  (200 <= fuel)%nat ->
  exists w',
    parse_by_date_range upstream fuel access_token date_from date_to w
    = Some (Return ObjNone, w').
Proof.
  intros Hup Hf.
  destruct (parse_by_date_range_ends upstream fuel access_token date_from
              date_to w Hf) as (o & w' & E & [-> | ->]); [eauto|].
  exfalso. unfold parse_by_date_range in E. apply walk_loop_trace in E.
  destruct E as (n & _ & _ & _ & F). now apply Hup in F.
Qed.

Section RunCompletes.

Variable upstream : nat -> request -> response.
Variable fuel : nat.
Variable access_token : string.
Hypothesis Hfuel : (200 <= fuel)%nat.
Hypothesis Hup : forall k q, upstream k q <> HttpFailure.

Variables dt_start dt_end parts : Z.
Hypothesis Hstart : 0 < dt_start.
Hypothesis Hend : dt_end <= MAXORDINAL.
Hypothesis Horder : dt_start <= dt_end.
Hypothesis Hparts : 0 < parts.

Let total := dt_end - dt_start + 1.
Let base := total / parts.
Let r := total mod parts.

(** With an upstream that never fails the loop goes on to the window that
    ends the range, and leaves there: by [break], or by the overflow of the
    day after 9999-12-31. *)
Lemma parts_loop_completes (n : nat) :
  forall (i current_start : Z) (w : world),
    0 <= i ->
    Z.of_nat n = parts - i ->
    current_start = dt_start + offset base r i ->
    offset base r i < total ->
    exists ws w',
      parts_loop upstream fuel access_token dt_end parts base r n i
        current_start w
      = Some (ws,
              if dt_end =? MAXORDINAL then Raise OverflowError
              else Return ObjNone,
              w').
Proof.
  destruct (split_total dt_start dt_end parts Horder Hparts)
    as (Ht & Hr & Hb).
  fold total base r in Ht, Hr, Hb.
  induction n as [|n IH]; intros i cs w Hi Hn Hcs Hin.
  { rewrite <- (offset_parts total parts base r Ht Hr) in Hin.
    replace i with parts in Hin by lia. lia. }
  assert (Hip : 0 <= i < parts) by lia.
  pose proof (offset_step base r i) as Hstep.
  pose proof (offset_next_le total parts base r Ht Hb i Hip) as Hle.
  pose proof (window_not_empty total parts base r Ht Hb i Hip Hin) as Hne.
  assert (Htot : total = dt_end - dt_start + 1) by reflexivity.
  assert (Hoff : 0 <= offset base r i) by (unfold offset; nia).
  cbn [parts_loop].
  rewrite add_days_some by lia.
  replace (cs + (base + (if i <? r then 1 else 0) - 1) >? dt_end)
    with false by lia.
  match goal with
  | |- context [parse_by_date_range ?u ?f ?a ?x ?y ?v] =>
      destruct (parse_by_date_range_returns u f a x y v Hup Hfuel)
        as (w1 & ->)
  end.
  unfold add_days.
  destruct (Z.eqb_spec dt_end MAXORDINAL) as [M|M].
  - destruct ((0 <? _) && (_ <=? MAXORDINAL)) eqn:Hadd; [|eauto].
    destruct (_ >? dt_end) eqn:Hgt; [lia|].
    destruct (IH (i + 1) (cs + (base + (if i <? r then 1 else 0) - 1) + 1)
                w1) as (ws & w' & ->); try lia.
    eauto.
  - destruct ((0 <? _) && (_ <=? MAXORDINAL)) eqn:Hadd; [|lia].
    destruct (_ >? dt_end) eqn:Hgt; [eauto|].
    destruct (IH (i + 1) (cs + (base + (if i <? r then 1 else 0) - 1) + 1)
                w1) as (ws & w' & ->); try lia.
    eauto.
Qed.

End RunCompletes.

(** X9 (how a run ends): with dates that parse, an end not before the
    start, a positive number of parts and an upstream that never fails, a
    run of [parse_with_parts] walks its windows and returns [None]; the one
    exception is a range that ends on 9999-12-31, where the step to the day
    after the last window raises OverflowError once all windows are
    walked. *)
Theorem run_returns (upstream : nat -> request -> response) (fuel : nat)
    (access_token date_from date_to : string) (parts : Z) (w : world)
    (dt_start dt_end : datetime) :
  (200 <= fuel)%nat ->
  (forall k q, upstream k q <> HttpFailure) ->
  strptime date_from = Some dt_start -> strptime date_to = Some dt_end ->
  dt_start <= dt_end -> 0 < parts ->
  exists ws w',
    parse_with_parts upstream fuel access_token date_from date_to parts w
    = Some (ws,
            if dt_end =? MAXORDINAL then Raise OverflowError
            else Return ObjNone,
            w')
    /\ len ws = Z.min parts (dt_end - dt_start + 1).
Proof.
  intros Hf Hup Ps Pe Ho Hp.
  pose proof (strptime_range _ _ Ps) as Rs.
  pose proof (strptime_range _ _ Pe) as Re.
  destruct (split_total dt_start dt_end parts Ho Hp) as (_ & Hr & _).
  destruct (parts_loop_completes upstream fuel access_token Hf Hup dt_start
              dt_end parts ltac:(lia) ltac:(lia) Ho Hp (Z.to_nat parts) 0
              dt_start w) as (ws & w' & E).
  - lia.
  - lia.
  - unfold offset. lia.
  - unfold offset. lia.
  - assert (R : parse_with_parts upstream fuel access_token date_from date_to
                  parts w
                = Some (ws,
                        if dt_end =? MAXORDINAL then Raise OverflowError
                        else Return ObjNone, w')).
    { unfold parse_with_parts. rewrite Ps, Pe.
      replace (dt_end <? dt_start) with false by lia.
      replace (parts <=? 0) with false by lia. exact E. }
    exists ws, w'. split; [exact R|].
    destruct (parse_with_parts_windows upstream fuel access_token date_from
                date_to parts w dt_start dt_end Hf Ps Pe Ho Hp)
      as (ws2 & o2 & w2 & m & E2 & Hm & Hws & Hfull).
    rewrite R in E2. injection E2 as <- <- <-.
    rewrite Hws. unfold len. rewrite length_count_from, Hfull; [lia|].
    destruct (dt_end =? MAXORDINAL); discriminate.
Qed.

Lemma run_returns_witness :
  exists ws w',
    parse_with_parts (steady 2) 200 "token" "2024-01-01" "2024-01-10" 3
      empty_world = Some (ws, Return ObjNone, w')
    /\ len ws = Z.min 3 (738895 - 738886 + 1).
Proof.
  apply (run_returns (steady 2) 200 "token" "2024-01-01" "2024-01-10" 3
           empty_world 738886 738895).
  - apply le_n.
  - intros k q. discriminate.
  - reflexivity.
  - reflexivity.
  - lia.
  - lia.
Defined.

(** * Dates written by [strftime] and read by [strptime] *)

Lemma ord2ymd_as_cycle (n : Z) :
  ord2ymd n = ord2ymd_cycle ((n - 1) / DI400Y) ((n - 1) mod DI400Y).
Proof. reflexivity. Qed.

Lemma ord2ymd_cycle_shift (k n : Z) :
  ord2ymd_cycle k n
  = let '(y, m, d) := ord2ymd_cycle 0 n in (y + 400 * k, m, d).
Proof.
  unfold ord2ymd_cycle. cbv zeta.
  destruct ((_ =? 4) || (_ =? 4)); [f_equal; f_equal; lia|].
  destruct (_ >? _); f_equal; f_equal; lia.
Qed.

Lemma cycle_checked : cycle_days_ok 1 (Z.to_nat DI400Y) = true.
Proof. vm_compute. reflexivity. Qed.

Lemma cycle_days_ok_at (count : nat) :
  forall n j,
    cycle_days_ok n count = true -> n <= j < n + Z.of_nat count ->
    cycle_day_ok j = true.
Proof.
  induction count as [|count IH]; intros n j H Hj; [lia|].
  cbn [cycle_days_ok] in H. apply andb_true_iff in H. destruct H as [H0 H].
  destruct (Z.eq_dec j n) as [->|N]; [exact H0|].
  apply (IH (n + 1)); [exact H | lia].
Qed.

Lemma cycle_day (n : Z) : 1 <= n <= DI400Y -> cycle_day_ok n = true.
Proof.
  intros H. apply (cycle_days_ok_at (Z.to_nat DI400Y) 1 n cycle_checked).
  unfold DI400Y in *. lia.
Qed.

Lemma is_leap_shift (y k : Z) : is_leap (y + 400 * k) = is_leap y.
Proof.
  unfold is_leap.
  replace ((y + 400 * k) mod 4) with (y mod 4)
    by (Z.div_mod_to_equations; lia).
  replace ((y + 400 * k) mod 100) with (y mod 100)
    by (Z.div_mod_to_equations; lia).
  replace ((y + 400 * k) mod 400) with (y mod 400)
    by (Z.div_mod_to_equations; lia).
  reflexivity.
Qed.

Lemma ymd2ord_shift (y m d k : Z) :
  ymd2ord (y + 400 * k) m d = ymd2ord y m d + DI400Y * k.
Proof.
  unfold ymd2ord, days_before_month, days_before_year, DI400Y.
  rewrite is_leap_shift.
  replace ((y + 400 * k - 1) / 4) with ((y - 1) / 4 + 100 * k)
    by (Z.div_mod_to_equations; lia).
  replace ((y + 400 * k - 1) / 100) with ((y - 1) / 100 + 4 * k)
    by (Z.div_mod_to_equations; lia).
  replace ((y + 400 * k - 1) / 400) with ((y - 1) / 400 + k)
    by (Z.div_mod_to_equations; lia).
  lia.
Qed.

Lemma days_in_month_shift (y m k : Z) :
  days_in_month (y + 400 * k) m = days_in_month y m.
Proof. unfold days_in_month. now rewrite is_leap_shift. Qed.

(** [ord2ymd] gives a date of the calendar, of which [ymd2ord] is the
    ordinal again. *)
Lemma ord2ymd_valid (n : Z) :
  0 < n <= MAXORDINAL ->
  exists y m d,
    ord2ymd n = (y, m, d)
    /\ 1 <= y <= 9999 /\ 1 <= m <= 12 /\ 1 <= d <= days_in_month y m
    /\ ymd2ord y m d = n.
Proof.
  intros H. unfold MAXORDINAL in H.
  set (k := (n - 1) / DI400Y). set (c := (n - 1) mod DI400Y).
  assert (Hn : n - 1 = DI400Y * k + c /\ 0 <= c < DI400Y /\ 0 <= k <= 24).
  { unfold k, c, DI400Y. Z.div_mod_to_equations. lia. }
  destruct Hn as (Hn & Hc & Hk).
  pose proof (cycle_day (c + 1) ltac:(lia)) as C.
  unfold cycle_day_ok in C. rewrite ord2ymd_as_cycle in C.
  replace ((c + 1 - 1) / DI400Y) with 0 in C
    by (unfold DI400Y in *; Z.div_mod_to_equations; lia).
  replace ((c + 1 - 1) mod DI400Y) with c in C
    by (unfold DI400Y in *; Z.div_mod_to_equations; lia).
  rewrite ord2ymd_as_cycle. fold k c. rewrite ord2ymd_cycle_shift.
  destruct (ord2ymd_cycle 0 c) as [[y m] d].
  do 7 (apply andb_true_iff in C; destruct C as [C ?]).
  exists (y + 400 * k), m, d. split; [reflexivity|].
  rewrite days_in_month_shift, ymd2ord_shift.
  unfold DI400Y in *. repeat split; try lia.
Qed.

Lemma digit_spec (n : Z) :
  exists c,
    digit n = String c EmptyString
    /\ is_ascii_digit c = true
    /\ Z.of_nat (nat_of_ascii c) - 48 = n mod 10
    /\ Ascii.eqb c "-" = false.
Proof.
  unfold digit.
  assert (B : 0 <= n mod 10 < 10) by (apply Z.mod_pos_bound; lia).
  remember (Z.to_nat (n mod 10)) as k eqn:Hk.
  assert (E : n mod 10 = Z.of_nat k) by lia.
  rewrite E. clear Hk.
  do 10 (destruct k as [|k];
         [eexists; split; [reflexivity|]; repeat split; reflexivity|]).
  lia.
Qed.

Lemma four_digits_value (y a b c d : Z) :
  0 <= y <= 9999 ->
  a = (y / 1000) mod 10 -> b = (y / 100) mod 10 -> c = (y / 10) mod 10 ->
  d = y mod 10 ->
  10 * (10 * (10 * (10 * 0 + a) + b) + c) + d = y.
Proof. intros H -> -> -> ->. Z.div_mod_to_equations. lia. Qed.

Lemma two_digits_value (m a b : Z) :
  0 <= m <= 99 -> a = (m / 10) mod 10 -> b = m mod 10 ->
  10 * (10 * 0 + a) + b = m.
Proof. intros H -> ->. Z.div_mod_to_equations. lia. Qed.

(** What [strftime] writes for a date, [strptime] reads as that date. *)
Lemma strptime_strftime (d : datetime) :
  0 < d <= MAXORDINAL -> strptime (strftime d "") = Some d.
Proof.
  intros H.
  destruct (ord2ymd_valid d H) as (y & m & dd & E & Hy & Hm & Hd & R).
  assert (Hdd : 1 <= dd <= 31).
  { pose proof (day_of_year_bounds y m dd Hm Hd) as B.
    unfold days_in_month in Hd.
    destruct (month_tables m Hm) as (T0 & T1 & _).
    destruct ((m =? 2) && is_leap y); [lia|].
    assert (nth (Z.to_nat m) DAYS_IN_MONTH 0 <= 31); [|lia].
    assert (m = 1 \/ m = 2 \/ m = 3 \/ m = 4 \/ m = 5 \/ m = 6 \/ m = 7
            \/ m = 8 \/ m = 9 \/ m = 10 \/ m = 11 \/ m = 12) as M by lia.
    repeat match goal with X : _ \/ _ |- _ => destruct X end;
      subst m; simpl; lia. }
  unfold strftime. rewrite E. unfold pad4, pad2.
  destruct (digit_spec (y / 1000)) as (y1 & -> & Dy1 & Vy1 & Ny1).
  destruct (digit_spec (y / 100)) as (y2 & -> & Dy2 & Vy2 & Ny2).
  destruct (digit_spec (y / 10)) as (y3 & -> & Dy3 & Vy3 & Ny3).
  destruct (digit_spec y) as (y4 & -> & Dy4 & Vy4 & Ny4).
  destruct (digit_spec (m / 10)) as (m1 & -> & Dm1 & Vm1 & Nm1).
  destruct (digit_spec m) as (m2 & -> & Dm2 & Vm2 & Nm2).
  destruct (digit_spec (dd / 10)) as (d1 & -> & Dd1 & Vd1 & Nd1).
  destruct (digit_spec dd) as (d2 & -> & Dd2 & Vd2 & Nd2).
  cbn [append]. unfold strptime. cbn [split_on].
  rewrite Ny1, Ny2, Ny3, Ny4, Nm1, Nm2, Nd1, Nd2.
  change (Ascii.eqb "-" "-") with true. cbv iota.
  unfold isdigit, slen, int.
  cbn [String.eqb all_digits String.length int_acc negb].
  rewrite Dy1, Dy2, Dy3, Dy4, Dm1, Dm2, Dd1, Dd2.
  rewrite (four_digits_value y _ _ _ _ ltac:(lia) Vy1 Vy2 Vy3 Vy4).
  rewrite (two_digits_value m _ _ ltac:(lia) Vm1 Vm2).
  rewrite (two_digits_value dd _ _ ltac:(lia) Vd1 Vd2).
  cbn [andb Z.of_nat Pos.of_succ_nat Pos.succ Z.eqb Z.leb Z.compare
       Pos.compare Pos.compare_cont Pos.eqb].
  replace (1 <=? y) with true by lia.
  replace (1 <=? m) with true by lia.
  replace (m <=? 12) with true by lia.
  replace (1 <=? dd) with true by lia.
  replace (dd <=? days_in_month y m) with true by lia.
  simpl. now rewrite R.
Qed.

(** * [parse_last_1_months] *)



(** * [export_to_google_sheets] *)

Lemma excluded_texts_checked :
  forallb (fun z => excluded_employer (PStr (str z))) EXCLUDED_EMPLOYEE_IDS
  = true.
Proof. vm_compute. reflexivity. Qed.

(** On a row the loop body let through, the WHERE clause only asks for an
    employer id that is not NULL. *)
Lemma where_clause_admissible (r : row) :
  row_admissible r -> where_clause r = has_employer_text r.
Proof.
  intros [X _]. unfold where_clause, has_employer_text, not_in.
  change (match EXCLUDED_EMPLOYEE_IDS with
          | [] => true
          | _ :: _ =>
              match employer_id r with
              | PNone => false
              | PStr s =>
                  negb (existsb (String.eqb s)
                          (map str EXCLUDED_EMPLOYEE_IDS))
              end
          end)
    with (match employer_id r with
          | PNone => false
          | PStr s =>
              negb (existsb (String.eqb s) (map str EXCLUDED_EMPLOYEE_IDS))
          end).
  destruct (employer_id r) as [|s]; [reflexivity|].
  destruct (existsb _ _) eqn:Ex; [|reflexivity].
  exfalso. apply existsb_exists in Ex. destruct Ex as (x & Hx & Hs).
  apply String.eqb_eq in Hs. subst x. apply in_map_iff in Hx.
  destruct Hx as (z & <- & Hz).
  pose proof excluded_texts_checked as C. rewrite forallb_forall in C.
  rewrite (C z Hz) in X. discriminate X.
Qed.

Lemma filter_ext_Forall {A : Type} (P : A -> Prop) (f g : A -> bool)
    (l : list A) :
  Forall P l -> (forall a, P a -> f a = g a) -> filter f l = filter g l.
Proof.
  intros F H. induction F as [|a l Pa F IH]; [reflexivity|].
  simpl. now rewrite (H a Pa), IH.
Qed.

Lemma string_leb_trans (a : string) :
  forall b c,
    String.leb a b = true -> String.leb b c = true -> String.leb a c = true.
Proof.
  unfold String.leb.
  induction a as [|x a IH]; intros [|y b] [|z c]; simpl; try easy.
  change (Ascii.compare x y) with (N.compare (N_of_ascii x) (N_of_ascii y)).
  change (Ascii.compare y z) with (N.compare (N_of_ascii y) (N_of_ascii z)).
  change (Ascii.compare x z) with (N.compare (N_of_ascii x) (N_of_ascii z)).
  destruct (N.compare_spec (N_of_ascii x) (N_of_ascii y)) as [E1|L1|G1];
    destruct (N.compare_spec (N_of_ascii y) (N_of_ascii z)) as [E2|L2|G2];
    try easy.
  - rewrite E1, E2, N.compare_refl. apply IH.
  - intros _ _. rewrite E1. now apply N.compare_lt_iff in L2 as ->.
  - intros _ _. rewrite <- E2. now apply N.compare_lt_iff in L1 as ->.
  - intros _ _. assert (L : (N_of_ascii x < N_of_ascii z)%N) by lia.
    now apply N.compare_lt_iff in L as ->.
Qed.

Lemma sql_le_total (a b : pyval) : sql_le a b = true \/ sql_le b a = true.
Proof.
  destruct a as [|x], b as [|y]; simpl; auto. apply String.leb_total.
Qed.

Lemma sql_le_trans (a b c : pyval) :
  sql_le a b = true -> sql_le b c = true -> sql_le a c = true.
Proof.
  destruct a as [|x], b as [|y], c as [|z]; simpl; try easy.
  apply string_leb_trans.
Qed.

Lemma insert_desc_perm (r : row) (rows : list row) :
  Permutation (insert_desc r rows) (r :: rows).
Proof.
  induction rows as [|x rows IH]; simpl; [reflexivity|].
  destruct (sql_le _ _); [reflexivity|].
  rewrite IH. apply perm_swap.
Qed.

Lemma insert_desc_descending (r : row) (rows : list row) :
  descending rows -> descending (insert_desc r rows).
Proof.
  induction rows as [|x rows IH]; intros D.
  - simpl. split; [intros ? []|exact I].
  - cbn [insert_desc]. destruct D as [Dx D].
    destruct (sql_le (published_at x) (published_at r)) eqn:L.
    + split; [|split; assumption].
      intros r' [<- | H]; [exact L|].
      apply (sql_le_trans _ (published_at x)); [now apply Dx | exact L].
    + split; [|now apply IH].
      intros r' H.
      apply (Permutation_in _ (insert_desc_perm r rows)) in H.
      destruct H as [<- | H]; [|now apply Dx].
      destruct (sql_le_total (published_at r) (published_at x)) as [T|T];
        [exact T | congruence].
Qed.

Lemma order_desc_fetched (t : table) :
  fetched t (order_desc (filter where_clause t)).
Proof.
  unfold fetched, order_desc. generalize (filter where_clause t).
  intros rows. induction rows as [|r rows [P D]]; simpl.
  - split; [constructor | exact I].
  - split.
    + rewrite insert_desc_perm. now constructor.
    + now apply insert_desc_descending.
Qed.

(** X11 (what reaches the sheet): for a table whose rows the loop body let
    through, the query always has an answer, and whatever order it picks
    among equal dates, the rows fetched are exactly the rows of the table
    whose employer id is not NULL: the exclusion list of the WHERE clause
    drops nothing that [save_to_db] stored, and a row stored with a NULL
    employer id never reaches the sheet.  The values uploaded are the
    header row followed by one row of 12 cells for each row fetched. *)
Theorem export_rows (t : table) :
  Forall row_admissible t ->
  (exists rows, fetched t rows)
  /\ forall rows,
       fetched t rows ->
       Permutation rows (filter has_employer_text t)
       /\ (forall r, In r t -> employer_id r = PNone -> ~ In r rows)
       /\ sheet_values rows = map PStr headers :: map select_columns rows
       /\ List.length (sheet_values rows)
          = S (List.length (filter has_employer_text t))
       /\ Forall (fun cells => List.length cells = 12%nat)
            (sheet_values rows).
Proof.
  intros F. split; [eexists; apply order_desc_fetched|].
  intros rows [P D].
  rewrite (filter_ext_Forall row_admissible where_clause has_employer_text
             t F where_clause_admissible) in P.
  split; [exact P|]. split; [|split; [reflexivity|split]].
  - intros r _ E H. apply (Permutation_in _ P), filter_In in H.
    destruct H as [_ H]. unfold has_employer_text in H.
    now rewrite E in H.
  - unfold sheet_values. simpl. rewrite length_map.
    now rewrite (Permutation_length P).
  - unfold sheet_values. constructor; [reflexivity|].
    apply Forall_forall. intros cells H. apply in_map_iff in H.
    destruct H as (r & <- & _). reflexivity.
Qed.

Lemma export_rows_witness :
  exists r1 r2,
    save_to_db [] [posting_email_only; posting_null_employer] = [r1; r2]
    /\ employer_id r2 = PNone
    /\ (exists rows, fetched [r1; r2] rows)
    /\ forall rows,
         fetched [r1; r2] rows ->
         Permutation rows (filter has_employer_text [r1; r2])
         /\ (forall r, In r [r1; r2] -> employer_id r = PNone -> ~ In r rows)
         /\ sheet_values rows = map PStr headers :: map select_columns rows
         /\ List.length (sheet_values rows)
            = S (List.length (filter has_employer_text [r1; r2]))
         /\ Forall (fun cells => List.length cells = 12%nat)
              (sheet_values rows).
Proof.
  eexists. eexists. split; [vm_compute; reflexivity|].
  split; [reflexivity|].
  apply export_rows.
  apply (save_to_db_admissible [posting_email_only; posting_null_employer] []).
  constructor.
Defined.

(** * The token functions *)

(** X12 (the token is cached): once [get_hh_token] has returned a token,
    calling it again returns the same token and changes nothing: no
    request is posted, nothing is printed or asked, and the token file is
    left as it is.  With a token file in place the first call is already
    such a call, and a file without [access_token] gives [None]. *)
Theorem get_hh_token_cached (HH_CLIENT_ID HH_CLIENT_SECRET HH_REDIRECT_URI : string)
    (token_server : nat -> token_request -> token_response) (typed : string)
    (a a' : auth) (v : pyval) :
  get_hh_token HH_CLIENT_ID HH_CLIENT_SECRET HH_REDIRECT_URI token_server
    typed a = (Ok v, a') ->
  get_hh_token HH_CLIENT_ID HH_CLIENT_SECRET HH_REDIRECT_URI token_server
    typed a' = (Ok v, a')
  /\ (exists token, token_file a' = Some token
                    /\ v = get_none (td_access_token token))
  /\ (token_file a <> None -> a' = a).
Proof.
  unfold get_hh_token. intros H.
  destruct (token_file a) as [token|] eqn:F.
  - injection H as <- <-. rewrite F. repeat split; eauto.
  - destruct (token_server _ _) as [|token]; [discriminate H|].
    injection H as <- <-. cbn [token_file say write_token post].
    repeat split; eauto. congruence.
Qed.

Lemma get_hh_token_cached_witness :
  exists a',
    get_hh_token "id" "secret" "https://example.com/" granting " code42 "
      blank_auth
    = (Ok (PStr "abc"), a')
    /\ get_hh_token "id" "secret" "https://example.com/" granting " code42 "
         a'
       = (Ok (PStr "abc"), a')
    /\ (exists token, token_file a' = Some token
                      /\ PStr "abc" = get_none (td_access_token token))
    /\ (token_file blank_auth <> None -> a' = blank_auth).
Proof.
  eexists. split; [reflexivity|].
  apply (get_hh_token_cached "id" "secret" "https://example.com/" granting
           " code42 " blank_auth).
  reflexivity.
Defined.

(** The two ways a refresh goes, and what the token functions read
    afterwards. *)
Lemma refresh_hh_token_cases (HH_CLIENT_ID HH_CLIENT_SECRET HH_REDIRECT_URI : string)
    (token_server : nat -> token_request -> token_response) (typed : string)
    (refresh_token : pyval) (a : auth) :
  let q := refresh_request HH_CLIENT_ID HH_CLIENT_SECRET refresh_token in
  let ra := refresh_hh_token HH_CLIENT_ID HH_CLIENT_SECRET token_server
              refresh_token a in
  posted (snd ra) = posted a ++ [q]
  /\ match token_server (List.length (posted a)) q with
     | TokenFailure =>
         fst ra = Ok PNone
         /\ token_file (snd ra) = token_file a
         /\ console (snd ra) = console a ++ [SayRefreshFailed]
     | TokenJson token =>
         token_file (snd ra) = Some token
         /\ console (snd ra) = console a
         /\ fst ra = match td_access_token token with
                     | Some v => Ok v
                     | None => Err KeyError
                     end
         /\ get_hh_token HH_CLIENT_ID HH_CLIENT_SECRET HH_REDIRECT_URI
              token_server typed (snd ra)
            = (Ok (get_none (td_access_token token)), snd ra)
         /\ get_refresh_token (snd ra) = get_none (td_refresh_token token)
     end.
Proof.
  cbv zeta. unfold refresh_hh_token.
  fold (refresh_request HH_CLIENT_ID HH_CLIENT_SECRET refresh_token).
  destruct (token_server (List.length (posted a))
              (refresh_request HH_CLIENT_ID HH_CLIENT_SECRET refresh_token))
    as [|token].
  - simpl. auto.
  - destruct (td_access_token token) as [v|] eqn:A; cbn [fst snd];
      (split; [reflexivity|]); (repeat split; try reflexivity);
      unfold get_hh_token; cbn [token_file write_token]; rewrite A;
      reflexivity.
Qed.

(** X13 (refreshing the token): [refresh_hh_token] posts one refresh
    request.  When it fails, [None] is returned and the token file is left
    as it was.  When it is answered, the token file is overwritten with
    the answer, also in the case where the answer has no [access_token]
    and the call raises KeyError; from then on [get_hh_token] returns the
    new access token and [get_refresh_token] the new refresh token. *)
Theorem refresh_outcomes (HH_CLIENT_ID HH_CLIENT_SECRET HH_REDIRECT_URI : string)
    (token_server : nat -> token_request -> token_response) (typed : string)
    (refresh_token : pyval) (a : auth) :
  let q := refresh_request HH_CLIENT_ID HH_CLIENT_SECRET refresh_token in
  let ra := refresh_hh_token HH_CLIENT_ID HH_CLIENT_SECRET token_server
              refresh_token a in
  posted (snd ra) = posted a ++ [q]
  /\ match token_server (List.length (posted a)) q with
     | TokenFailure =>
         fst ra = Ok PNone
         /\ token_file (snd ra) = token_file a
         /\ console (snd ra) = console a ++ [SayRefreshFailed]
     | TokenJson token =>
         token_file (snd ra) = Some token
         /\ console (snd ra) = console a
         /\ fst ra = match td_access_token token with
                     | Some v => Ok v
                     | None => Err KeyError
                     end
         /\ get_hh_token HH_CLIENT_ID HH_CLIENT_SECRET HH_REDIRECT_URI
              token_server typed (snd ra)
            = (Ok (get_none (td_access_token token)), snd ra)
         /\ get_refresh_token (snd ra) = get_none (td_refresh_token token)
     end.
Proof.
  apply refresh_hh_token_cases.
Qed.

(** * [main] *)

Lemma parts_loop_terminates (upstream : nat -> request -> response)
    (fuel : nat) (access_token : string)
    (dt_end parts days_per_part remainder : Z) (n : nat) :
  (200 <= fuel)%nat ->
  forall (i current_start : Z) (w : world),
    exists res,
      parts_loop upstream fuel access_token dt_end parts days_per_part
        remainder n i current_start w = Some res.
Proof.
  intros Hf. induction n as [|n IH]; intros i cs w; [simpl; eauto|].
  cbn [parts_loop].
  destruct (add_days cs _) as [e|]; [|eauto].
  match goal with
  | |- context [parse_by_date_range ?u ?f ?a ?x ?y ?v] =>
      destruct (parse_by_date_range_ends u f a x y v Hf)
        as (o1 & w1 & -> & [-> | ->])
  end; [|eauto].
  destruct (add_days _ 1) as [nxt|]; [|eauto].
  destruct (nxt >? dt_end); [eauto|].
  destruct (IH (i + 1) nxt w1) as ([[ws o] w2] & ->). eauto.
Qed.

Lemma parse_last_1_months_ends (upstream : nat -> request -> response)
    (fuel : nat) (access_token : string) (now : datetime) (parts : Z)
    (w : world) :
  (200 <= fuel)%nat ->
  exists ws o w',
    parse_last_1_months upstream fuel access_token now parts w
    = Some (ws, o, w').
Proof.
  intros Hf. unfold parse_last_1_months, parse_with_parts.
  destruct (add_days now (- 60)); [|eauto].
  destruct (strptime _); [|eauto].
  destruct (strptime _); [|eauto].
  destruct (_ <? _); [eauto|].
  destruct (_ <=? _); [eauto|].
  match goal with
  | |- context [parts_loop ?u ?f ?a ?e ?p ?b ?r ?n ?i ?c ?v] =>
      destruct (parts_loop_terminates u f a e p b r n Hf i c v)
        as ([[ws o] w'] & ->)
  end.
  eauto.
Qed.

Lemma parse_last_1_months_effects (upstream : nat -> request -> response)
    (fuel : nat) (access_token : string) (now : datetime) (parts : Z)
    (w w' : world) (ws : list window) (o : outcome) :
  parse_last_1_months upstream fuel access_token now parts w
  = Some (ws, o, w') ->
  exists got, db w' = save_to_db (db w) got.
Proof.
  unfold parse_last_1_months. intros H.
  destruct (add_days now (- 60)).
  - apply parse_with_parts_effects in H. tauto.
  - injection H as <- <- <-. now exists [].
Qed.

Lemma get_hh_token_posts (HH_CLIENT_ID HH_CLIENT_SECRET HH_REDIRECT_URI : string)
    (token_server : nat -> token_request -> token_response) (typed : string)
    (a a' : auth) (r : result pyval) :
  get_hh_token HH_CLIENT_ID HH_CLIENT_SECRET HH_REDIRECT_URI token_server
    typed a = (r, a') ->
  forall q, In q (posted a') -> In q (posted a) \/ t_url q = HH_TOKEN_URL.
Proof.
  unfold get_hh_token. intros H q Hq.
  destruct (token_file a); [injection H as <- <-; now left|].
  destruct (token_server _ _); injection H as <- <-;
    cbn [posted say post write_token] in Hq;
    apply in_app_or in Hq; destruct Hq as [Hq | [<- | []]]; auto.
Qed.

Section MainFacts.

Variables HH_CLIENT_ID HH_CLIENT_SECRET HH_REDIRECT_URI : string.
Variable token_server : nat -> token_request -> token_response.
Variable typed : string.
Variable upstream : nat -> request -> response.
Variable fuel : nat.
Variable now : datetime.
Variable fetchall : table -> list row.

Let run_main :=
  main HH_CLIENT_ID HH_CLIENT_SECRET HH_REDIRECT_URI token_server typed
    upstream fuel now fetchall.

Let token_of :=
  get_hh_token HH_CLIENT_ID HH_CLIENT_SECRET HH_REDIRECT_URI token_server
    typed.

Lemma main_cases (s : system) :
  (200 <= fuel)%nat ->
  exists (r : result unit) (s' : system) (t' : table) (got : list Posting),
    run_main s = Some (r, s')
    /\ store s' = Some t'
    /\ t' = save_to_db (init_db (store s)) got
    /\ match r with
       | Ok _ =>
           uploaded s' = uploaded s ++ [sheet_values (fetchall t')]
           /\ notes s' = notes s ++ [NoteRowsUpdated (len (fetchall t'))]
           /\ forall q, In q (posted (hh s')) ->
                        In q (posted (hh s)) \/ t_url q = HH_TOKEN_URL
       | Err _ => uploaded s' = uploaded s
       end.
Proof.
  intros Hf. unfold run_main, main.
  destruct (get_hh_token _ _ _ _ _ (hh s)) as [[tok|f] a] eqn:G.
  2:{ eexists (Err f), _, _, []. repeat split; reflexivity. }
  match goal with
  | |- context [parse_last_1_months ?u ?f ?a ?n ?p ?v] =>
      destruct (parse_last_1_months_ends u f a n p v Hf)
        as (ws & o & w' & E)
  end.
  rewrite E. apply parse_last_1_months_effects in E.
  destruct E as (got & E). cbn [db] in E.
  destruct o as [v|e].
  - eexists (Ok tt), _, (db w'), got. cbn [store uploaded notes hh].
    repeat split; trivial.
    now apply (get_hh_token_posts _ _ _ _ _ _ _ _ G).
  - destruct e.
    + destruct (refresh_hh_token _ _ _ _ a) as [[v|f] a2];
        eexists _, _, (db w'), got; cbn [store uploaded]; auto.
    + eexists _, _, (db w'), got; cbn [store uploaded]; auto.
    + eexists _, _, (db w'), got; cbn [store uploaded]; auto.
Qed.

End MainFacts.

(** X14 (what [main] uploads): [main] always comes to an end.  The rows
    that were in the table before are the first rows of the table after,
    however [main] ends.  It uploads to the sheet exactly when it ends
    without an exception: then once, the export of the table as the
    ingestion left it, and without having asked for a token refresh; when
    it ends with an exception nothing is uploaded. *)
Theorem main_uploads_after_ingestion
    (HH_CLIENT_ID HH_CLIENT_SECRET HH_REDIRECT_URI : string)
    (token_server : nat -> token_request -> token_response) (typed : string)
    (upstream : nat -> request -> response) (fuel : nat) (now : datetime)
    (fetchall : table -> list row) (s : system) :
  (200 <= fuel)%nat ->
  exists (r : result unit) (s' : system) (t' added : table),
    main HH_CLIENT_ID HH_CLIENT_SECRET HH_REDIRECT_URI token_server typed
      upstream fuel now fetchall s = Some (r, s')
    /\ store s' = Some t'
    /\ t' = init_db (store s) ++ added
    /\ match r with
       | Ok _ =>
           uploaded s' = uploaded s ++ [sheet_values (fetchall t')]
           /\ notes s' = notes s ++ [NoteRowsUpdated (len (fetchall t'))]
           /\ forall q, In q (posted (hh s')) ->
                        In q (posted (hh s)) \/ t_url q = HH_TOKEN_URL
       | Err _ => uploaded s' = uploaded s
       end.
Proof.
  intros Hf.
  destruct (main_cases HH_CLIENT_ID HH_CLIENT_SECRET HH_REDIRECT_URI
              token_server typed upstream fuel now fetchall s Hf)
    as (r & s' & t' & got & E & St & Ht & Hr).
  destruct (save_to_db_extends (init_db (store s)) got) as [added Ha].
  exists r, s', t', added. rewrite <- Ha. auto.
Qed.

Lemma main_uploads_after_ingestion_witness :
  exists (r : result unit) (s' : system) (t' added : table),
    main "id" "secret" "https://example.com/" granting " code42 "
      (steady 1) 200 739000 order_desc blank_system = Some (r, s')
    /\ store s' = Some t'
    /\ t' = init_db (store blank_system) ++ added
    /\ match r with
       | Ok _ =>
           uploaded s'
           = uploaded blank_system ++ [sheet_values (order_desc t')]
           /\ notes s'
              = notes blank_system ++ [NoteRowsUpdated (len (order_desc t'))]
           /\ forall q, In q (posted (hh s')) ->
                        In q (posted (hh blank_system))
                        \/ t_url q = HH_TOKEN_URL
       | Err _ => uploaded s' = uploaded blank_system
       end.
Proof.
  apply (main_uploads_after_ingestion "id" "secret" "https://example.com/"
           granting " code42 " (steady 1) 200 739000 order_desc blank_system).
  apply le_n.
Defined.

(** X15 (an upstream error in [main]): when the token is there and the
    ingestion raises the upstream's HTTP error, [main] prints it, posts
    one refresh request with the refresh token of the token file ([None]
    when the file has none), uploads nothing and raises: the HTTP error
    again, or KeyError when the refresh was answered without an
    [access_token].  An exception of the ingestion that is not the HTTP
    error goes through [main] without a refresh. *)
Theorem main_after_ingestion_error
    (HH_CLIENT_ID HH_CLIENT_SECRET HH_REDIRECT_URI : string)
    (token_server : nat -> token_request -> token_response) (typed : string)
    (upstream : nat -> request -> response) (fuel : nat) (now : datetime)
    (fetchall : table -> list row) (s : system)
    (tok : pyval) (a : auth) (ws : list window) (e : exn) (w' : world) :
  get_hh_token HH_CLIENT_ID HH_CLIENT_SECRET HH_REDIRECT_URI token_server
    typed (hh s) = (Ok tok, a) ->
  parse_last_1_months upstream fuel (py_str tok) now 20
    {| db := init_db (store s); sent := searches s; out := stdout s |}
  = Some (ws, Raise e, w') ->
  exists (f : failure) (s' : system),
    main HH_CLIENT_ID HH_CLIENT_SECRET HH_REDIRECT_URI token_server typed
      upstream fuel now fetchall s = Some (Err f, s')
    /\ uploaded s' = uploaded s
    /\ store s' = Some (db w')
    /\ searches s' = sent w'
    /\ if match e with HTTPError => true | _ => false end then
         posted (hh s')
         = posted a
           ++ [refresh_request HH_CLIENT_ID HH_CLIENT_SECRET
                 (get_refresh_token a)]
         /\ notes s' = notes s ++ [NoteError HTTPError]
         /\ (f = Exn HTTPError \/ f = KeyError)
         /\ (f = KeyError <->
             exists token,
               token_server (List.length (posted a))
                 (refresh_request HH_CLIENT_ID HH_CLIENT_SECRET
                    (get_refresh_token a)) = TokenJson token
               /\ td_access_token token = None)
       else hh s' = a /\ notes s' = notes s /\ f = Exn e.
Proof.
  intros G E. unfold main. rewrite G, E.
  destruct e.
  - pose proof (refresh_hh_token_cases HH_CLIENT_ID HH_CLIENT_SECRET
                  HH_REDIRECT_URI token_server typed (get_refresh_token a) a)
      as R.
    cbv zeta in R. destruct R as [P R].
    destruct (refresh_hh_token _ _ _ _ a) as [[v|f] a2] eqn:Q;
      cbn [fst snd] in P, R.
    + eexists _, _. split; [reflexivity|]. cbn [uploaded store searches hh notes].
      repeat split; trivial; [now left | discriminate |].
      intros (token & T & A). rewrite T in R.
      destruct R as (_ & _ & R & _). rewrite A in R. discriminate R.
    + eexists _, _. split; [reflexivity|]. cbn [uploaded store searches hh notes].
      destruct (token_server _ _) as [|token].
      * destruct R as (R & _). discriminate R.
      * destruct R as (_ & _ & R & _).
        destruct (td_access_token token) as [v|] eqn:A; [discriminate R|].
        injection R as ->. repeat split; trivial; [now right | eauto].
  - eexists _, _. split; [reflexivity|]. cbn. repeat split; reflexivity.
  - eexists _, _. split; [reflexivity|]. cbn. repeat split; reflexivity.
Qed.

Lemma main_after_ingestion_error_witness :
  exists (a : auth) (ws : list window) (w' : world) (f : failure)
         (s' : system),
    get_hh_token "id" "secret" "https://example.com/" granting " code42 "
      (hh blank_system) = (Ok (PStr "abc"), a)
    /\ parse_last_1_months first_search_fails 200 (py_str (PStr "abc"))
         739000 20
         {| db := init_db (store blank_system);
            sent := searches blank_system; out := stdout blank_system |}
       = Some (ws, Raise HTTPError, w')
    /\ main "id" "secret" "https://example.com/" granting " code42 "
         first_search_fails 200 739000 order_desc blank_system
       = Some (Err f, s')
    /\ uploaded s' = uploaded blank_system
    /\ posted (hh s')
       = posted a ++ [refresh_request "id" "secret" (get_refresh_token a)]
    /\ f = Exn HTTPError.
Proof.
  eexists. eexists. eexists.
  destruct (main_after_ingestion_error "id" "secret" "https://example.com/"
              granting " code42 " first_search_fails 200 739000 order_desc
              blank_system (PStr "abc") _ _ HTTPError _ eq_refl
              ltac:(vm_compute; reflexivity))
    as (f & s' & M & U & _ & _ & P & _ & _ & K).
  exists f, s'. split; [reflexivity|]. split; [vm_compute; reflexivity|].
  split; [exact M|]. split; [exact U|]. split; [exact P|].
  vm_compute in M. injection M as <- _. reflexivity.
Defined.

(** * [parse_all_vacancies] *)

Lemma plain_answers_S (plain_upstream : nat -> plain_request -> response)
    (access_token : string) (k : nat) (page : Z) (n : nat) :
  plain_answers plain_upstream access_token k page (S n)
  = plain_upstream k (plain_page_request access_token page)
    :: plain_answers plain_upstream access_token (S k) (page + 1) n.
Proof.
  unfold plain_answers. simpl. rewrite Nat.add_0_r, Z.add_0_r. f_equal.
  rewrite <- seq_shift, map_map. apply map_ext. intros j.
  f_equal; [lia | f_equal; lia].
Qed.

Section AllVacanciesFacts.

Variable plain_upstream : nat -> plain_request -> response.
Variable access_token : string.

Lemma all_loop_trace (fuel : nat) :
  forall (page total_saved : Z) (w w' : plain_world) (o : outcome),
    0 <= page < 200 ->
    all_loop plain_upstream fuel access_token page 100 total_saved w
    = Some (o, w') ->
    exists n : nat,
      (1 <= n)%nat /\ page + Z.of_nat n <= 200
      /\ psent w' = psent w
                    ++ map (plain_page_request access_token)
                         (count_from page n)
      /\ let got :=
           flat_map items_of
             (plain_answers plain_upstream access_token
                (List.length (psent w)) page n) in
         pdb w' = save_to_db (pdb w) got
         /\ match o with
            | Return v =>
                v = ObjNone
                /\ exists lines,
                     pout w' = pout w ++ lines
                               ++ [PlainTotal (total_saved + len got)]
            | Raise e => e = HTTPError
            end.
Proof.
  induction fuel as [|fuel IH]; intros page total w w' o Hp H;
    [discriminate H|].
  simpl in H. fold (plain_page_request access_token page) in H.
  destruct (plain_upstream (List.length (psent w))
              (plain_page_request access_token page)) as [|data] eqn:A.
  { injection H as <- <-. exists 1%nat.
    rewrite count_from_S, plain_answers_S, A. simpl.
    repeat split; trivial; lia. }
  destruct (or_default (d_items data) []) as [|x xs] eqn:Items.
  { injection H as <- <-. exists 1%nat.
    rewrite count_from_S, plain_answers_S, A. unfold len. simpl.
    rewrite Items. simpl. rewrite Z.add_0_r.
    repeat split; trivial; try lia.
    exists [PlainNoMore]. now rewrite <- app_assoc. }
  remember (x :: xs) as vacancies eqn:Hv. clear Hv x xs.
  destruct (page + 1 >=? or_default (d_pages data) 1) eqn:Last.
  { injection H as <- <-. exists 1%nat.
    rewrite count_from_S, plain_answers_S, A. simpl. rewrite Items, app_nil_r.
    repeat split; trivial; try lia.
    eexists [_; _]. rewrite <- !app_assoc. reflexivity. }
  destruct (page + 1 >=? 200) eqn:Ceil.
  { injection H as <- <-. exists 1%nat.
    rewrite count_from_S, plain_answers_S, A. simpl. rewrite Items, app_nil_r.
    repeat split; trivial; try lia.
    eexists [_; _]. rewrite <- !app_assoc. reflexivity. }
  apply IH in H; [|lia]. destruct H as (n & Hn & Hb & Hs & Hd & Ho).
  simpl in Hs, Hd, Ho. rewrite length_app in Hd, Ho. simpl in Hd, Ho.
  rewrite Nat.add_1_r in Hd, Ho.
  exists (S n). rewrite count_from_S, plain_answers_S, A. simpl flat_map.
  rewrite Items. split; [lia|]. split; [lia|]. split; [|split].
  - rewrite Hs, <- app_assoc. reflexivity.
  - rewrite Hd, save_to_db_app. reflexivity.
  - destruct o as [v|e]; [|exact Ho].
    destruct Ho as (Hv & lines & Ho). split; [exact Hv|].
    eexists (_ :: lines).
    rewrite Ho, <- !app_assoc, len_app, Z.add_assoc. reflexivity.
Qed.

Lemma all_loop_terminates (fuel : nat) :
  forall (page total_saved : Z) (w : plain_world),
    0 <= page < 200 ->
    (Z.to_nat (200 - page) <= fuel)%nat ->
    exists o w',
      all_loop plain_upstream fuel access_token page 100 total_saved w
      = Some (o, w').
Proof.
  induction fuel as [|fuel IH]; intros page total w Hp Hf; [lia|].
  simpl.
  destruct (plain_upstream _ _) as [|data]; [eauto|].
  destruct (or_default (d_items data) []) as [|x xs]; [eauto|].
  destruct (page + 1 >=? or_default (d_pages data) 1); [eauto|].
  destruct (page + 1 >=? 200) eqn:Ceil; [eauto|].
  apply IH; lia.
Qed.

End AllVacanciesFacts.

(** X16 ([parse_all_vacancies]): whatever the upstream answers, the walk
    over the whole keyword search ends within 200 requests, for the pages
    0, 1, ..., n - 1, each with the keyword, 100 postings a page and the
    token, and with no date range and no exclusion list; the table after
    it is the table before with the postings received saved in order, so
    the exclusion and the contact gate of [save_to_db] hold here too; a
    return hands back [None] after printing the number of postings
    received, and a raise is the upstream's HTTP error. *)
Theorem all_vacancies_walk (plain_upstream : nat -> plain_request -> response)
    (fuel : nat) (access_token : string) (w : plain_world) :
  (200 <= fuel)%nat ->
  exists (o : outcome) (w' : plain_world) (n : nat),
    parse_all_vacancies plain_upstream fuel access_token w = Some (o, w')
    /\ (1 <= n <= 200)%nat
    /\ psent w' = psent w
                  ++ map (plain_page_request access_token) (count_from 0 n)
    /\ let got :=
         flat_map items_of
           (plain_answers plain_upstream access_token
              (List.length (psent w)) 0 n) in
       pdb w' = save_to_db (pdb w) got
       /\ (Forall row_admissible (pdb w) -> Forall row_admissible (pdb w'))
       /\ match o with
          | Return v =>
              v = ObjNone
              /\ exists lines, pout w' = pout w ++ lines ++ [PlainTotal (len got)]
          | Raise e => e = HTTPError
          end.
Proof.
  intros Hf. unfold parse_all_vacancies.
  destruct (all_loop_terminates plain_upstream access_token fuel 0 0 w)
    as (o & w' & E); [lia | simpl; lia |].
  exists o, w'.
  destruct (all_loop_trace plain_upstream access_token fuel 0 0 w w' o
              ltac:(lia) E) as (n & Hn & Hb & Hs & Hd & Ho).
  exists n. split; [exact E|]. split; [lia|]. split; [exact Hs|].
  split; [exact Hd|]. split; [|exact Ho].
  rewrite Hd. apply save_to_db_admissible.
Qed.

Lemma all_vacancies_walk_witness :
  exists (o : outcome) (w' : plain_world) (n : nat),
    parse_all_vacancies plain_endless 200 "token" plain_empty_world
    = Some (o, w')
    /\ (1 <= n <= 200)%nat
    /\ psent w' = psent plain_empty_world
                  ++ map (plain_page_request "token") (count_from 0 n)
    /\ pdb w' = save_to_db (pdb plain_empty_world)
                  (flat_map items_of
                     (plain_answers plain_endless "token"
                        (List.length (psent plain_empty_world)) 0 n))
       /\ (Forall row_admissible (pdb plain_empty_world) ->
           Forall row_admissible (pdb w'))
       /\ match o with
          | Return v =>
              v = ObjNone
              /\ exists lines,
                   pout w' = pout plain_empty_world ++ lines
                             ++ [PlainTotal
                                   (len (flat_map items_of
                                           (plain_answers plain_endless
                                              "token"
                                              (List.length
                                                 (psent plain_empty_world))
                                              0 n)))]
          | Raise e => e = HTTPError
          end.
Proof.
  apply (all_vacancies_walk plain_endless 200 "token" plain_empty_world).
  apply le_n.
Defined.

(** * The ids a batch leaves in the table *)

Lemma save_to_db_ids_from (vacancies : list Posting) :
  forall (db : table) (s : string),
    In s (text_ids (save_to_db db vacancies)) ->
    In s (text_ids db)
    \/ exists vac r,
         In vac vacancies /\ record_filter vac = Some r /\ id r = PStr s.
Proof.
  induction vacancies as [|v xs IH]; intros db s H; [now left|].
  rewrite save_to_db_cons in H. apply IH in H.
  destruct H as [H | (vac & r & I & R & E)].
  - unfold save_one in H. destruct (record_filter v) as [r|] eqn:R;
      [|now left].
    destruct (insert_cases db r) as [Q | [Q _]]; rewrite Q in H;
      [|now left].
    rewrite text_ids_app in H. apply in_app_or in H.
    destruct H as [H|H]; [now left|]. right. exists v, r.
    simpl in H. destruct (id r) as [|x]; [destruct H|].
    destruct H as [-> | []]. split; [now left | auto].
  - right. exists vac, r. split; [now right | auto].
Qed.

